(** * Verification of gorgonia's comparison kernels and of the genapi generator

    Two programs are embedded here.

    - [Tensor]: the generated file of package [tensor], 272 element-wise
      comparison kernels [<op><shape><result><kind>], all instances of four
      loop shapes.
    - [Genapi]: [cmd/genapi/main.go], which scans a parsed Go file for a
      constant group, normalises the names it finds and renders one
      text/template per name. *)

From Stdlib Require Import ZArith Floats.PrimFloat.
From Stdlib Require Floats.SpecFloat Floats.FloatOps Floats.FloatAxioms.
From stdpp Require Import base option list strings gmap.

Set Default Proof Using "Type".

(** ** Go run-time faults *)

(** A Go function either returns or panics; the two run-time panics the
    embedded code can raise are an index out of range and a failed type
    assertion. *)
Variant fault : Type :=
  | IndexOutOfRange (index len : nat)
  | TypeAssertion.

Inductive run (A : Type) : Type :=
  | Ret (x : A)
  | Panics (f : fault).
Arguments Ret {A} x.
Arguments Panics {A} f.

#[global] Instance run_ret : MRet run := fun A x => Ret x.
#[global] Instance run_bind : MBind run := fun A B k m =>
  match m with
  | Ret x => k x
  | Panics f => Panics f
  end.

Definition returns {A} (m : run A) : bool :=
  match m with Ret _ => true | Panics _ => false end.

(** [s[i]] as an operand. *)
Definition index {A} (s : list A) (i : nat) : run A :=
  match s !! i with
  | Some x => Ret x
  | None => Panics (IndexOutOfRange i (length s))
  end.

(** [s[i] = x]. *)
Definition setIndex {A} (s : list A) (i : nat) (x : A) : run (list A) :=
  if decide (i < length s) then Ret (<[i:=x]> s)
  else Panics (IndexOutOfRange i (length s)).

(** [make([]T, n)]: [n] copies of the zero value of [T]. *)
Definition make {A} (zero : A) (n : nat) : list A := replicate n zero.

(** [for i, v := range a { body }], with the loop-carried state [r]
    (here always [retVal]); [rangeFrom] is the loop from index [i] on. *)
Fixpoint rangeFrom {A R} (body : nat -> A -> R -> run R)
    (i : nat) (a : list A) (r : R) : run R :=
  match a with
  | [] => Ret r
  | v :: rest => r' ← body i v r; rangeFrom body (S i) rest r'
  end.

Definition forRange {A R} (body : nat -> A -> R -> run R)
    (a : list A) (r : R) : run R :=
  rangeFrom body 0 a r.

(** What a loop whose body is [retVal[i] = g i v] stores, slot by slot. *)
Fixpoint collect {A B} (g : nat -> A -> run B) (i : nat) (a : list A)
  : run (list B) :=
  match a with
  | [] => Ret []
  | v :: rest => y ← g i v; ys ← collect g (S i) rest; Ret (y :: ys)
  end.

Module Tensor.

(** ** The four loop shapes

    Every function of the generated file is one of these four bodies, at
    an element type [A], a comparison [op] of the Go language and, for the
    [Same] forms, the constants [1] and [0] of [A]. *)
Section Loops.
Context {A : Type} (op : A -> A -> bool).

(** <<
    retVal = make([]bool, len(a))
    for i, v := range a { retVal[i] = v op b[i] }
    return retVal
    >> *)
Definition kernDDBools (a b : list A) : run (list bool) :=
  let retVal := make false (length a) in
  forRange (fun i v retVal =>
              bi ← index b i;
              setIndex retVal i (op v bi)) a retVal.

(** <<
    for i, v := range a { retVal[i] = v op b }
    >> *)
Definition kernDSBools (a : list A) (b : A) : run (list bool) :=
  let retVal := make false (length a) in
  forRange (fun i v retVal => setIndex retVal i (op v b)) a retVal.

(** <<
    retVal = make([]T, len(a))
    for i, v := range a {
      if v op b[i] { retVal[i] = 1 } else { retVal[i] = 0 }
    }
    >>
    [zero] is both the zero value [make] fills with and the constant
    [0] of the else branch: they coincide at every kind that has a
    [Same] kernel. *)
Definition kernDDSame (one zero : A) (a b : list A) : run (list A) :=
  let retVal := make zero (length a) in
  forRange (fun i v retVal =>
              bi ← index b i;
              if op v bi then setIndex retVal i one
              else setIndex retVal i zero) a retVal.

Definition kernDSSame (one zero : A) (a : list A) (b : A) : run (list A) :=
  let retVal := make zero (length a) in
  forRange (fun i v retVal =>
              if op v b then setIndex retVal i one
              else setIndex retVal i zero) a retVal.

(** The [0]/[1] indicator of a comparison. *)
Definition indicator (one zero : A) (x y : A) : A :=
  if op x y then one else zero.

End Loops.

(** ** Kinds, operators and the kernel matrix *)

Inductive Kind : Type :=
  | KBool | KInt | KInt8 | KInt16 | KInt32 | KInt64
  | KUint | KUint8 | KUint16 | KUint32 | KUint64 | KUintptr
  | KFloat32 | KFloat64 | KComplex64 | KComplex128
  | KString | KUnsafePointer.

Inductive Op : Type := EqOp | GtOp | GteOp | LtOp | LteOp.
Inductive Shape : Type := DD | DS.
Inductive ResultKind : Type := Bools | Same.

#[global] Instance Kind_eq_dec : EqDecision Kind.
Proof. solve_decision. Defined.
#[global] Instance Op_eq_dec : EqDecision Op.
Proof. solve_decision. Defined.
#[global] Instance Shape_eq_dec : EqDecision Shape.
Proof. solve_decision. Defined.
#[global] Instance ResultKind_eq_dec : EqDecision ResultKind.
Proof. solve_decision. Defined.

(** Name parts, as they appear in the generated identifiers. *)
Definition opPrefix (op : Op) : string :=
  match op with
  | EqOp => "eq" | GtOp => "gt" | GteOp => "gte" | LtOp => "lt" | LteOp => "lte"
  end.

Definition shapeName (s : Shape) : string :=
  match s with DD => "DD" | DS => "DS" end.

Definition resultName (r : ResultKind) : string :=
  match r with Bools => "Bools" | Same => "Same" end.

Definition kindSuffix (k : Kind) : string :=
  match k with
  | KBool => "B" | KInt => "I" | KInt8 => "I8" | KInt16 => "I16"
  | KInt32 => "I32" | KInt64 => "I64"
  | KUint => "U" | KUint8 => "U8" | KUint16 => "U16" | KUint32 => "U32"
  | KUint64 => "U64" | KUintptr => "Uintptr"
  | KFloat32 => "F32" | KFloat64 => "F64"
  | KComplex64 => "C64" | KComplex128 => "C128"
  | KString => "Str" | KUnsafePointer => "UnsafePointer"
  end.

Definition KernelVariant : Type := Op * Shape * ResultKind * Kind.

Definition kernelName (v : KernelVariant) : string :=
  let '(op, sh, rk, k) := v in
  opPrefix op +:+ shapeName sh +:+ resultName rk +:+ kindSuffix k.

(** The functions the generated file declares, in file order. *)
Definition generatedFunctions : list string :=
  [
   "eqDDBoolsB"; "eqDSBoolsB"; "eqDDBoolsI"; "eqDDSameI";
   "eqDSBoolsI"; "eqDSSameI"; "eqDDBoolsI8"; "eqDDSameI8";
   "eqDSBoolsI8"; "eqDSSameI8"; "eqDDBoolsI16"; "eqDDSameI16";
   "eqDSBoolsI16"; "eqDSSameI16"; "eqDDBoolsI32"; "eqDDSameI32";
   "eqDSBoolsI32"; "eqDSSameI32"; "eqDDBoolsI64"; "eqDDSameI64";
   "eqDSBoolsI64"; "eqDSSameI64"; "eqDDBoolsU"; "eqDDSameU";
   "eqDSBoolsU"; "eqDSSameU"; "eqDDBoolsU8"; "eqDDSameU8";
   "eqDSBoolsU8"; "eqDSSameU8"; "eqDDBoolsU16"; "eqDDSameU16";
   "eqDSBoolsU16"; "eqDSSameU16"; "eqDDBoolsU32"; "eqDDSameU32";
   "eqDSBoolsU32"; "eqDSSameU32"; "eqDDBoolsU64"; "eqDDSameU64";
   "eqDSBoolsU64"; "eqDSSameU64"; "eqDDBoolsUintptr"; "eqDSBoolsUintptr";
   "eqDDBoolsF32"; "eqDDSameF32"; "eqDSBoolsF32"; "eqDSSameF32";
   "eqDDBoolsF64"; "eqDDSameF64"; "eqDSBoolsF64"; "eqDSSameF64";
   "eqDDBoolsC64"; "eqDDSameC64"; "eqDSBoolsC64"; "eqDSSameC64";
   "eqDDBoolsC128"; "eqDDSameC128"; "eqDSBoolsC128"; "eqDSSameC128";
   "eqDDBoolsStr"; "eqDSBoolsStr"; "eqDDBoolsUnsafePointer"; "eqDSBoolsUnsafePointer";
   "gtDDBoolsI"; "gtDDSameI"; "gtDSBoolsI"; "gtDSSameI";
   "gtDDBoolsI8"; "gtDDSameI8"; "gtDSBoolsI8"; "gtDSSameI8";
   "gtDDBoolsI16"; "gtDDSameI16"; "gtDSBoolsI16"; "gtDSSameI16";
   "gtDDBoolsI32"; "gtDDSameI32"; "gtDSBoolsI32"; "gtDSSameI32";
   "gtDDBoolsI64"; "gtDDSameI64"; "gtDSBoolsI64"; "gtDSSameI64";
   "gtDDBoolsU"; "gtDDSameU"; "gtDSBoolsU"; "gtDSSameU";
   "gtDDBoolsU8"; "gtDDSameU8"; "gtDSBoolsU8"; "gtDSSameU8";
   "gtDDBoolsU16"; "gtDDSameU16"; "gtDSBoolsU16"; "gtDSSameU16";
   "gtDDBoolsU32"; "gtDDSameU32"; "gtDSBoolsU32"; "gtDSSameU32";
   "gtDDBoolsU64"; "gtDDSameU64"; "gtDSBoolsU64"; "gtDSSameU64";
   "gtDDBoolsUintptr"; "gtDSBoolsUintptr"; "gtDDBoolsF32"; "gtDDSameF32";
   "gtDSBoolsF32"; "gtDSSameF32"; "gtDDBoolsF64"; "gtDDSameF64";
   "gtDSBoolsF64"; "gtDSSameF64"; "gtDDBoolsStr"; "gtDSBoolsStr";
   "gteDDBoolsI"; "gteDDSameI"; "gteDSBoolsI"; "gteDSSameI";
   "gteDDBoolsI8"; "gteDDSameI8"; "gteDSBoolsI8"; "gteDSSameI8";
   "gteDDBoolsI16"; "gteDDSameI16"; "gteDSBoolsI16"; "gteDSSameI16";
   "gteDDBoolsI32"; "gteDDSameI32"; "gteDSBoolsI32"; "gteDSSameI32";
   "gteDDBoolsI64"; "gteDDSameI64"; "gteDSBoolsI64"; "gteDSSameI64";
   "gteDDBoolsU"; "gteDDSameU"; "gteDSBoolsU"; "gteDSSameU";
   "gteDDBoolsU8"; "gteDDSameU8"; "gteDSBoolsU8"; "gteDSSameU8";
   "gteDDBoolsU16"; "gteDDSameU16"; "gteDSBoolsU16"; "gteDSSameU16";
   "gteDDBoolsU32"; "gteDDSameU32"; "gteDSBoolsU32"; "gteDSSameU32";
   "gteDDBoolsU64"; "gteDDSameU64"; "gteDSBoolsU64"; "gteDSSameU64";
   "gteDDBoolsUintptr"; "gteDSBoolsUintptr"; "gteDDBoolsF32"; "gteDDSameF32";
   "gteDSBoolsF32"; "gteDSSameF32"; "gteDDBoolsF64"; "gteDDSameF64";
   "gteDSBoolsF64"; "gteDSSameF64"; "gteDDBoolsStr"; "gteDSBoolsStr";
   "ltDDBoolsI"; "ltDDSameI"; "ltDSBoolsI"; "ltDSSameI";
   "ltDDBoolsI8"; "ltDDSameI8"; "ltDSBoolsI8"; "ltDSSameI8";
   "ltDDBoolsI16"; "ltDDSameI16"; "ltDSBoolsI16"; "ltDSSameI16";
   "ltDDBoolsI32"; "ltDDSameI32"; "ltDSBoolsI32"; "ltDSSameI32";
   "ltDDBoolsI64"; "ltDDSameI64"; "ltDSBoolsI64"; "ltDSSameI64";
   "ltDDBoolsU"; "ltDDSameU"; "ltDSBoolsU"; "ltDSSameU";
   "ltDDBoolsU8"; "ltDDSameU8"; "ltDSBoolsU8"; "ltDSSameU8";
   "ltDDBoolsU16"; "ltDDSameU16"; "ltDSBoolsU16"; "ltDSSameU16";
   "ltDDBoolsU32"; "ltDDSameU32"; "ltDSBoolsU32"; "ltDSSameU32";
   "ltDDBoolsU64"; "ltDDSameU64"; "ltDSBoolsU64"; "ltDSSameU64";
   "ltDDBoolsUintptr"; "ltDSBoolsUintptr"; "ltDDBoolsF32"; "ltDDSameF32";
   "ltDSBoolsF32"; "ltDSSameF32"; "ltDDBoolsF64"; "ltDDSameF64";
   "ltDSBoolsF64"; "ltDSSameF64"; "ltDDBoolsStr"; "ltDSBoolsStr";
   "lteDDBoolsI"; "lteDDSameI"; "lteDSBoolsI"; "lteDSSameI";
   "lteDDBoolsI8"; "lteDDSameI8"; "lteDSBoolsI8"; "lteDSSameI8";
   "lteDDBoolsI16"; "lteDDSameI16"; "lteDSBoolsI16"; "lteDSSameI16";
   "lteDDBoolsI32"; "lteDDSameI32"; "lteDSBoolsI32"; "lteDSSameI32";
   "lteDDBoolsI64"; "lteDDSameI64"; "lteDSBoolsI64"; "lteDSSameI64";
   "lteDDBoolsU"; "lteDDSameU"; "lteDSBoolsU"; "lteDSSameU";
   "lteDDBoolsU8"; "lteDDSameU8"; "lteDSBoolsU8"; "lteDSSameU8";
   "lteDDBoolsU16"; "lteDDSameU16"; "lteDSBoolsU16"; "lteDSSameU16";
   "lteDDBoolsU32"; "lteDDSameU32"; "lteDSBoolsU32"; "lteDSSameU32";
   "lteDDBoolsU64"; "lteDDSameU64"; "lteDSBoolsU64"; "lteDSSameU64";
   "lteDDBoolsUintptr"; "lteDSBoolsUintptr"; "lteDDBoolsF32"; "lteDDSameF32";
   "lteDSBoolsF32"; "lteDSSameF32"; "lteDDBoolsF64"; "lteDDSameF64";
   "lteDSBoolsF64"; "lteDSSameF64"; "lteDDBoolsStr"; "lteDSBoolsStr"
  ].

Definition allOps : list Op := [EqOp; GtOp; GteOp; LtOp; LteOp].
Definition allShapes : list Shape := [DD; DS].
Definition allResultKinds : list ResultKind := [Bools; Same].
Definition allKinds : list Kind :=
  [KBool; KInt; KInt8; KInt16; KInt32; KInt64;
   KUint; KUint8; KUint16; KUint32; KUint64; KUintptr;
   KFloat32; KFloat64; KComplex64; KComplex128; KString; KUnsafePointer].

(** A kernel variant exists when the file declares a function of its
    name. *)
Definition hasKernel (op : Op) (sh : Shape) (rk : ResultKind) (k : Kind) : bool :=
  bool_decide (kernelName (op, sh, rk, k) ∈ generatedFunctions).

(** The kernel matrix: the variants that exist. *)
Definition kernelMatrix : list KernelVariant :=
  op ← allOps; k ← allKinds; sh ← allShapes; rk ← allResultKinds;
  if hasKernel op sh rk k then [(op, sh, rk, k)] else [].

(** ** Element values and the comparisons of the Go language

    Integers are their values in [Z]; the kernels compare and store the
    constants 0 and 1 only, so no arithmetic wraps.  [float32] and
    [float64] are IEEE 754 binary floats, compared as such (a [float32]
    is the [float64] of the same value); a complex number is its real and
    imaginary parts; a string is its bytes; an [unsafe.Pointer] is its
    address. *)
Definition complex : Type := float * float.

Definition elem (k : Kind) : Type :=
  match k with
  | KBool => bool
  | KInt | KInt8 | KInt16 | KInt32 | KInt64
  | KUint | KUint8 | KUint16 | KUint32 | KUint64 | KUintptr => Z
  | KFloat32 | KFloat64 => float
  | KComplex64 | KComplex128 => complex
  | KString => string
  | KUnsafePointer => Z
  end.

Definition intCmp (op : Op) : Z -> Z -> bool :=
  match op with
  | EqOp => Z.eqb | GtOp => Z.gtb | GteOp => Z.geb | LtOp => Z.ltb | LteOp => Z.leb
  end.

(** IEEE comparisons: every one of them is false on a NaN operand, so
    [>=] is not the negation of [<]. *)
Definition floatCmp (op : Op) : float -> float -> bool :=
  match op with
  | EqOp => PrimFloat.eqb
  | GtOp => fun x y => PrimFloat.ltb y x
  | GteOp => fun x y => PrimFloat.leb y x
  | LtOp => PrimFloat.ltb
  | LteOp => PrimFloat.leb
  end.

Definition complexEq (x y : complex) : bool :=
  PrimFloat.eqb x.1 y.1 && PrimFloat.eqb x.2 y.2.

(** Strings compare byte by byte, lexicographically. *)
Definition stringCmp (op : Op) : string -> string -> bool :=
  match op with
  | EqOp => String.eqb
  | GtOp => fun x y => String.ltb y x
  | GteOp => fun x y => String.leb y x
  | LtOp => String.ltb
  | LteOp => String.leb
  end.

(** [goCmp op k] is the operator [op] of Go at kind [k], [None] where the
    language has none: booleans, complex numbers and [unsafe.Pointer] are
    comparable but not ordered. *)
Definition goCmp (op : Op) (k : Kind) : option (elem k -> elem k -> bool) :=
  match k return option (elem k -> elem k -> bool) with
  | KBool => match op with EqOp => Some Bool.eqb | _ => None end
  | KInt | KInt8 | KInt16 | KInt32 | KInt64
  | KUint | KUint8 | KUint16 | KUint32 | KUint64 | KUintptr => Some (intCmp op)
  | KFloat32 | KFloat64 => Some (floatCmp op)
  | KComplex64 | KComplex128 =>
      match op with EqOp => Some complexEq | _ => None end
  | KString => Some (stringCmp op)
  | KUnsafePointer => match op with EqOp => Some Z.eqb | _ => None end
  end.

(** The constants [1] and [0] converted to kind [k], as the pair
    [(one, zero)]; [None] where Go has no such conversion. *)
Definition goConst10 (k : Kind) : option (elem k * elem k) :=
  match k return option (elem k * elem k) with
  | KInt | KInt8 | KInt16 | KInt32 | KInt64
  | KUint | KUint8 | KUint16 | KUint32 | KUint64 | KUintptr => Some (1%Z, 0%Z)
  | KFloat32 | KFloat64 => Some (1%float, 0%float)
  | KComplex64 | KComplex128 => Some ((1%float, 0%float), (0%float, 0%float))
  | KBool | KString | KUnsafePointer => None
  end.

(** ** Classes of kinds and operators *)

Definition isOrdering (op : Op) : bool :=
  match op with EqOp => false | _ => true end.

Definition isComplexKind (k : Kind) : bool :=
  match k with KComplex64 | KComplex128 => true | _ => false end.

Definition isBoolKind (k : Kind) : bool :=
  match k with KBool => true | _ => false end.

Definition isStringKind (k : Kind) : bool :=
  match k with KString => true | _ => false end.

(** The pointer-sized integer [uintptr] and the opaque [unsafe.Pointer]. *)
Definition isPointerKind (k : Kind) : bool :=
  match k with KUintptr | KUnsafePointer => true | _ => false end.

Definition isOpaquePointerKind (k : Kind) : bool :=
  match k with KUnsafePointer => true | _ => false end.

(** Go has the operator at the kind. *)
Definition supports (op : Op) (k : Kind) : bool :=
  match goCmp op k with Some _ => true | None => false end.

(** ** The kernels by variant

    The spec's names for the four shapes.  A variant that the generated
    file does not declare has no kernel. *)
Definition compareArrayArray (op : Op) (k : Kind)
  : option (list (elem k) -> list (elem k) -> run (list bool)) :=
  if hasKernel op DD Bools k then kernDDBools <$> goCmp op k else None.

Definition compareArrayScalar (op : Op) (k : Kind)
  : option (list (elem k) -> elem k -> run (list bool)) :=
  if hasKernel op DS Bools k then kernDSBools <$> goCmp op k else None.

Definition compareArrayArraySame (op : Op) (k : Kind)
  : option (list (elem k) -> list (elem k) -> run (list (elem k))) :=
  if hasKernel op DD Same k then
    f ← goCmp op k; c ← goConst10 k; Some (kernDDSame f c.1 c.2)
  else None.

Definition compareArrayScalarSame (op : Op) (k : Kind)
  : option (list (elem k) -> elem k -> run (list (elem k))) :=
  if hasKernel op DS Same k then
    f ← goCmp op k; c ← goConst10 k; Some (kernDSSame f c.1 c.2)
  else None.

(** Some of the generated functions by name. *)
Definition eqDDBoolsB : list bool -> list bool -> run (list bool) :=
  kernDDBools Bool.eqb.
Definition eqDSBoolsB : list bool -> bool -> run (list bool) :=
  kernDSBools Bool.eqb.
Definition eqDDBoolsI : list Z -> list Z -> run (list bool) :=
  kernDDBools Z.eqb.
Definition eqDDSameI : list Z -> list Z -> run (list Z) :=
  kernDDSame Z.eqb 1%Z 0%Z.
Definition eqDSBoolsI : list Z -> Z -> run (list bool) :=
  kernDSBools Z.eqb.
Definition eqDSSameI : list Z -> Z -> run (list Z) :=
  kernDSSame Z.eqb 1%Z 0%Z.
Definition gtDDBoolsUintptr : list Z -> list Z -> run (list bool) :=
  kernDDBools Z.gtb.
Definition eqDDBoolsUnsafePointer : list Z -> list Z -> run (list bool) :=
  kernDDBools Z.eqb.
Definition gtDSSameF64 : list float -> float -> run (list float) :=
  kernDSSame (fun v b => PrimFloat.ltb b v) 1%float 0%float.

End Tensor.

(** ** The kernels on a heap

    The list model above passes slices by value.  To speak of aliasing
    and of what a call leaves unchanged, the same loops are embedded over
    a store of backing arrays: a slice is a window into an array, two
    slices may share one, and [make] allocates an array the store did not
    have. *)
Module Heap.

(** A slice header: the backing array, the offset of element 0 in it and
    the length. *)
Record slice : Type := Slice { sArr : nat; sOff : nat; sLen : nat }.

(** The backing arrays, by address. *)
Abbreviation store V := (gmap nat (list V)).

Section Store.
Context {V : Type}.

(** A Go statement: it runs on a store and returns or panics; the
    store stays, also after a panic. *)
Definition act (A : Type) : Type := store V -> run A * store V.

Definition aret {A} (x : A) : act A := fun h => (Ret x, h).

Definition abind {A B} (m : act A) (k : A -> act B) : act B := fun h =>
  match m h with
  | (Ret x, h') => k x h'
  | (Panics e, h') => (Panics e, h')
  end.

(** The elements a slice shows, when it lies within its array. *)
Definition contents (h : store V) (s : slice) : option (list V) :=
  cells ← h !! sArr s;
  if decide (sOff s + sLen s <= length cells)
  then Some (take (sLen s) (drop (sOff s) cells))
  else None.

(** [s[i]] as an operand.  A slice outside its array is no Go value;
    reading through one is reported as out of range too. *)
Definition load (s : slice) (i : nat) : act V := fun h =>
  if decide (i < sLen s) then
    match h !! sArr s ≫= (fun cells => cells !! (sOff s + i)) with
    | Some v => (Ret v, h)
    | None => (Panics (IndexOutOfRange i (sLen s)), h)
    end
  else (Panics (IndexOutOfRange i (sLen s)), h).

(** [s[i] = x]. *)
Definition storeAt (s : slice) (i : nat) (x : V) : act unit := fun h =>
  if decide (i < sLen s) then
    match h !! sArr s with
    | Some cells => (Ret (), <[sArr s := <[sOff s + i := x]> cells]> h)
    | None => (Panics (IndexOutOfRange i (sLen s)), h)
    end
  else (Panics (IndexOutOfRange i (sLen s)), h).

(** [make([]T, n)]: a new array of [n] zero values at an address the
    store does not use. *)
Definition makeSlice (zero : V) (n : nat) : act slice := fun h =>
  let l := fresh (dom h) in
  (Ret (Slice l 0 n), <[l := replicate n zero]> h).

(** [for i, v := range a { body }]: the header [a] is read once, the
    element [a[i]] at each turn; [rangeSlice] is the loop from index
    [i] with [n] turns left. *)
Fixpoint rangeSlice (body : nat -> V -> act unit) (a : slice) (i n : nat)
  : act unit :=
  match n with
  | 0 => aret ()
  | S n' =>
      abind (load a i) (fun v =>
      abind (body i v) (fun _ =>
      rangeSlice body a (S i) n'))
  end.

(** The body [retVal[i] = f v b[i]]: the boolean-mask kernels at
    [V = bool], where input and result share the element type. *)
Definition kernDDBools (f : V -> V -> V) (zero : V) (a b : slice) : act slice :=
  abind (makeSlice zero (sLen a)) (fun retVal =>
  abind (rangeSlice (fun i v =>
                       abind (load b i) (fun bi =>
                       storeAt retVal i (f v bi))) a 0 (sLen a)) (fun _ =>
  aret retVal)).

Definition kernDSBools (f : V -> V -> V) (zero : V) (a : slice) (b : V) : act slice :=
  abind (makeSlice zero (sLen a)) (fun retVal =>
  abind (rangeSlice (fun i v => storeAt retVal i (f v b)) a 0 (sLen a)) (fun _ =>
  aret retVal)).

(** The body [if v op b[i] { retVal[i] = 1 } else { retVal[i] = 0 }]. *)
Definition kernDDSame (op : V -> V -> bool) (one zero : V) (a b : slice) : act slice :=
  abind (makeSlice zero (sLen a)) (fun retVal =>
  abind (rangeSlice (fun i v =>
                       abind (load b i) (fun bi =>
                       if op v bi then storeAt retVal i one
                       else storeAt retVal i zero)) a 0 (sLen a)) (fun _ =>
  aret retVal)).

Definition kernDSSame (op : V -> V -> bool) (one zero : V) (a : slice) (b : V) : act slice :=
  abind (makeSlice zero (sLen a)) (fun retVal =>
  abind (rangeSlice (fun i v =>
                       if op v b then storeAt retVal i one
                       else storeAt retVal i zero) a 0 (sLen a)) (fun _ =>
  aret retVal)).

(** ** What a call may do to the store *)

(** Every array the store had is still there, unchanged. *)
Definition unchanged (h h' : store V) : Prop :=
  forall p : nat, p ∈ dom h -> h' !! p = h !! p.

(** The outcome of a kernel against the expected one: a returned slice
    is in an array the old store did not have and shows the expected
    elements; a panic is the expected panic. *)
Definition freshOutput (h h' : store V) (res : run slice)
    (expected : run (list V)) : Prop :=
  match res with
  | Ret r => (sArr r ∉ dom h) /\
             exists out, expected = Ret out /\ contents h' r = Some out
  | Panics e => expected = Panics e
  end.

(** A call on a store [h] with the slices [inputs] as arguments: it
    leaves every array of [h] as it was, so the inputs show what they
    showed; what it returns is in a new array, which no input is in;
    and its outcome is [expected]. *)
Definition pureCall (h : store V) (inputs : list slice)
    (out : run slice * store V) (expected : run (list V)) : Prop :=
  unchanged h out.2 /\
  Forall (fun s => contents out.2 s = contents h s) inputs /\
  freshOutput h out.2 out.1 expected /\
  forall r, out.1 = Ret r -> Forall (fun s => sArr r <> sArr s) inputs.

End Store.

Arguments act V A : clear implicits.

(** Two of the generated functions whose result has the element type of
    the arguments, so that typing alone does not keep them apart. *)
Definition eqDDBoolsB : slice -> slice -> act bool slice :=
  kernDDBools Bool.eqb false.
Definition eqDDSameI : slice -> slice -> act Z slice :=
  kernDDSame Z.eqb 1%Z 0%Z.
Definition eqDSSameI : slice -> Z -> act Z slice :=
  kernDSSame Z.eqb 1%Z 0%Z.

(** Two windows of one array as the arguments of [eqDDSameI]. *)
Definition sharedStore : store Z := {[ 7 := [1; 2; 3; 1; 5; 3]%Z ]}.

End Heap.

(** * The generator: [cmd/genapi/main.go] *)
Module Genapi.

(** ** Go strings

    A Go string is UTF-8 text; [strings.Title] and [strings.ToLower] work
    on its code points and [strings.TrimSuffix] on its bytes, which for
    the ASCII suffix the generator trims is the same cut.  A string is
    embedded as its code points. *)
Definition rune : Type := Z.
Abbreviation gostring := (list rune).

(** An ASCII literal. *)
Definition str (s : string) : gostring :=
  (fun c => Z.of_N (Ascii.N_of_ascii c)) <$> String.list_ascii_of_string s.

Definition nl : gostring := [10%Z].
Definition tab : gostring := [9%Z].
Definition quote : gostring := [34%Z].

(** The tables of package [unicode] beyond ASCII.  They belong to the Go
    library, not to the generator, and are left open. *)
Record UnicodeTables : Type := {
  tableIsLetter : rune -> bool;
  tableIsDigit : rune -> bool;
  tableIsSpace : rune -> bool;
  tableToTitle : rune -> rune;
  tableToLower : rune -> rune
}.

Definition between (lo hi r : rune) : bool := (lo <=? r)%Z && (r <=? hi)%Z.
Arguments between (lo hi r)%_Z.

Section WithUnicode.
Variable U : UnicodeTables.

(** [unicode.ToTitle]: title case is upper case for ASCII. *)
Definition unicodeToTitle (r : rune) : rune :=
  if (r <=? 127)%Z then
    if between 97 122 r then (r - 32)%Z else r
  else tableToTitle U r.

(** [unicode.ToLower]. *)
Definition unicodeToLower (r : rune) : rune :=
  if (r <=? 127)%Z then
    if between 65 90 r then (r + 32)%Z else r
  else tableToLower U r.

(** [isSeparator] of package [strings]: ASCII letters, digits and the
    underscore do not separate words, the other ASCII characters do;
    beyond ASCII, letters and digits do not, and spaces do. *)
Definition isSeparator (r : rune) : bool :=
  if (r <=? 127)%Z then
    if between 48 57 r then false
    else if between 97 122 r then false
    else if between 65 90 r then false
    else if (r =? 95)%Z then false
    else true
  else if tableIsLetter U r || tableIsDigit U r then false
  else tableIsSpace U r.

(** [strings.Title]: the rune after a separator, and the first one, go
    to title case. *)
Fixpoint titleFrom (prev : rune) (s : gostring) : gostring :=
  match s with
  | [] => []
  | r :: rest =>
      (if isSeparator prev then unicodeToTitle r else r) :: titleFrom r rest
  end.

Definition Title (s : gostring) : gostring := titleFrom 32%Z s.

(** [strings.ToLower]. *)
Definition ToLower (s : gostring) : gostring := unicodeToLower <$> s.

(** [strings.HasSuffix] and [strings.TrimSuffix]. *)
Definition HasSuffix (s suffix : gostring) : bool :=
  bool_decide (length suffix <= length s)
  && bool_decide (drop (length s - length suffix) s = suffix).

Definition TrimSuffix (s suffix : gostring) : gostring :=
  if HasSuffix s suffix then take (length s - length suffix) s else s.

(** ** The parsed declarations ([go/ast])

    Only what [constTypes] looks at: the token of a general
    declaration, its specs, and of a value spec the names and the
    type. *)
Inductive Token : Type := IMPORT | CONST | TYPE | VAR.

Definition Token_IsKeyword (t : Token) : bool := true.

Definition Token_String (t : Token) : gostring :=
  match t with
  | IMPORT => str "import" | CONST => str "const"
  | TYPE => str "type" | VAR => str "var"
  end.

Inductive Expr : Type :=
  | Ident (Name : gostring)
  | OtherExpr.

Inductive Spec : Type :=
  | ImportSpec
  | ValueSpec (Names : list gostring) (Type_ : option Expr)
  | TypeSpec.

Inductive Decl : Type :=
  | BadDecl
  | GenDecl (Tok : Token) (Specs : list Spec)
  | FuncDecl.

(** The type assertion of a spec to a value spec. *)
Definition asValueSpec (s : Spec) : run (list gostring * option Expr) :=
  match s with
  | ValueSpec names typ => Ret (names, typ)
  | _ => Panics TypeAssertion
  end.

(** The inner loop of [constTypes]:
    <<
    for _, spec := range d.Specs {
      name := (spec as a value spec).Names[0].Name
      if name == max { continue }
      names = append(names, name)
    }
    >> *)
Fixpoint collectNames (specs : list Spec) (max : gostring)
    (names : list gostring) : run (list gostring) :=
  match specs with
  | [] => Ret names
  | spec :: rest =>
      vs ← asValueSpec spec;
      name ← index vs.1 0;
      if bool_decide (name = max) then collectNames rest max names
      else collectNames rest max (names ++ [name])
  end.

(** [constTypes], the loop over [decls] with the names found so far.
    The log lines are not embedded. *)
Fixpoint constTypesFrom (decls : list Decl) (accept max : gostring)
    (names : list gostring) : run (list gostring) :=
  match decls with
  | [] => Ret names
  | GenDecl tok specs :: rest =>
      if Token_IsKeyword tok && bool_decide (Token_String tok = str "const")
      then
        match specs with
        | [] => constTypesFrom rest accept max names
        | spec0 :: _ =>
            vs ← asValueSpec spec0;
            match vs.2 with
            | None => constTypesFrom rest accept max names
            | Some typ =>
                let typename :=
                  match typ with Ident name => name | OtherExpr => [] end in
                if bool_decide (typename <> accept)
                then constTypesFrom rest accept max names
                else
                  names' ← collectNames specs max names;
                  constTypesFrom rest accept max names'
            end
        end
      else constTypesFrom rest accept max names
  | _ :: rest => constTypesFrom rest accept max names
  end.

Definition constTypes (decls : list Decl) (accept max : gostring)
  : run (list gostring) :=
  constTypesFrom decls accept max [].

(** ** Templates ([text/template])

    The tree of a parsed template, as far as the two templates of the
    generator go: text, a field or a function call printed, and a
    conditional. *)
Inductive Value : Type :=
  | VString (s : gostring)
  | VBool (b : bool).

(** The data of an execution: the fields of a struct, by name. *)
Definition Data : Type := list (string * Value).

Inductive Pipe : Type :=
  | Field (name : string)
  | Call (fn : string) (arg : Pipe).

#[local] Unset Elimination Schemes.
Inductive Node : Type :=
  | Text (text : gostring)
  | Action (pipe : Pipe)
  | If (cond : Pipe) (thenList elseList : list Node).
#[local] Set Elimination Schemes.

Variant ExecError : Type :=
  | NoSuchField (name : string)
  | NoSuchFunction (name : string)
  | WrongArgument (fn : string).

Definition fieldOf (data : Data) (name : string) : option Value :=
  snd <$> find (fun f => String.eqb f.1 name) data.

(** Truth of a value in a conditional: a boolean is itself, a string is
    true when not empty. *)
Definition truth (v : Value) : bool :=
  match v with
  | VBool b => b
  | VString s => negb (bool_decide (s = []))
  end.

(** The functions a template can call: [lower] of the generator's
    [funcmap], which is [strings.ToLower], and the builtin [not]. *)
Definition callFunction (fn : string) (arg : Value) : ExecError + Value :=
  if String.eqb fn "lower" then
    match arg with
    | VString s => inr (VString (ToLower s))
    | VBool _ => inl (WrongArgument fn)
    end
  else if String.eqb fn "not" then inr (VBool (negb (truth arg)))
  else inl (NoSuchFunction fn).

Fixpoint evalPipe (data : Data) (p : Pipe) : ExecError + Value :=
  match p with
  | Field name =>
      match fieldOf data name with
      | Some v => inr v
      | None => inl (NoSuchField name)
      end
  | Call fn arg =>
      match evalPipe data arg with
      | inr v => callFunction fn v
      | inl e => inl e
      end
  end.

Definition printValue (v : Value) : gostring :=
  match v with
  | VString s => s
  | VBool true => str "true"
  | VBool false => str "false"
  end.

(** Execution writes to [out] as it goes: what was written before an
    error stays written. *)
Fixpoint execNode (data : Data) (n : Node) (out : gostring)
  : gostring * option ExecError :=
  match n with
  | Text text => (out ++ text, None)
  | Action pipe =>
      match evalPipe data pipe with
      | inr v => (out ++ printValue v, None)
      | inl e => (out, Some e)
      end
  | If cond thenList elseList =>
      match evalPipe data cond with
      | inr v =>
          (fix execList (ns : list Node) (out : gostring) :=
             match ns with
             | [] => (out, None)
             | n :: rest =>
                 match execNode data n out with
                 | (out', None) => execList rest out'
                 | (out', Some e) => (out', Some e)
                 end
             end) (if truth v then thenList else elseList) out
      | inl e => (out, Some e)
      end
  end.

Fixpoint execList (data : Data) (ns : list Node) (out : gostring)
  : gostring * option ExecError :=
  match ns with
  | [] => (out, None)
  | n :: rest =>
      match execNode data n out with
      | (out', None) => execList data rest out'
      | (out', Some e) => (out', Some e)
      end
  end.

(** [t.Execute(outFile, data)]. *)
Definition Execute (t : list Node) (outFile : gostring) (data : Data)
  : gostring * option ExecError :=
  execList data t outFile.

(** The trees of [unaryTemplateRaw] and [binaryTemplateRaw], with the
    white space next to a trim marker removed as the parser does. *)
Definition unaryTemplateTree : list Node :=
  [ Text (str " // ");
    Action (Field "FnName");
    Text (str " performs a pointwise ");
    Action (Call "lower" (Field "FnName"));
    Text (str "." ++ nl ++ str "func ");
    Action (Field "FnName");
    Text (str "(a *Node) (*Node, error) { return unaryOpNode(newElemUnaryOp(");
    Action (Field "OpType");
    Text (str ", a), a) }" ++ nl) ].

Definition binaryTemplateTree : list Node :=
  [ Text (str "// ");
    Action (Field "FnName");
    Text (str " perfors a pointwise ");
    Action (Call "lower" (Field "FnName"));
    Text (str " operation." ++ nl);
    If (Field "AsSame")
      [Text (str "//" ++ tab ++ str "retSame indicates if the data type of the return value should be the same as the input data type. It defaults to Bool otherwise." ++ nl)]
      [];
    Text (str "func ");
    Action (Field "FnName");
    Text (str "(a, b *Node");
    If (Field "AsSame")
      [Text (str ", retSame bool")]
      [];
    Text (str ") (*Node, error) { ");
    If (Call "not" (Field "AsSame"))
      [Text (str "return binOpNode(newElemBinOp(");
       Action (Field "OpType");
       Text (str ", a, b), a, b) ")]
      [Text (str "op := newElemBinOp(");
       Action (Field "OpType");
       Text (str ", a, b)" ++ nl ++ tab ++ str "op.retSame = retSame" ++ nl ++ tab ++ str "return binOpNode(op, a, b)" ++ nl)];
    Text (str "}" ++ nl ++ nl ++ str "// ");
    Action (Field "FnName");
    Text (str "Op ..." ++ nl ++ str "func New");
    Action (Field "FnName");
    Text (str "Operation() Operation {" ++ nl ++ tab ++ str "return func(g graph.WeightedDirected, n node.Node) (ops.Op, error) {" ++ nl ++ tab ++ tab ++ str "it := getOrderedChildren(g, n)" ++ nl ++ tab ++ tab ++ str "children := make([]*Node, it.Len())" ++ nl ++ tab ++ tab ++ str "for i := 0; it.Next(); i++ {" ++ nl ++ tab ++ tab ++ tab ++ str "children[i] = it.Node().(*Node)" ++ nl ++ tab ++ tab ++ str "}" ++ nl ++ tab ++ tab ++ str "return newElemBinOp(");
    Action (Field "OpType");
    Text (str ", children[0], children[1]), nil" ++ nl ++ tab ++ str "}" ++ nl ++ str "}" ++ nl) ].

(** The package variables [unaryTemplate] and [binaryTemplate]; [init]
    sets them to the two trees. *)
Record Templates : Type := {
  unaryTemplate : list Node;
  binaryTemplate : list Node
}.

Definition init : Templates :=
  {| unaryTemplate := unaryTemplateTree; binaryTemplate := binaryTemplateTree |}.

(** ** The two generators *)

(** What [parser.ParseFile] gave. *)
Inductive ParseResult : Type :=
  | Parsed (decls : list Decl)
  | ParseError.

(** How a step of the run ends: it goes on with the text written so
    far, [log.Fatal] ends the process, or it panics. *)
Inductive status : Type :=
  | Done (outFile : gostring)
  | Fatal
  | Panic (f : fault).

Definition opTypeSuffix : gostring := str "OpType".

(** [ʘUnaryOperatorType], [maxʘUnaryOperator], [ʘBinaryOperatorType]
    and [maxʘBinaryOpType]; the letter [ʘ] is U+0298. *)
Definition unaryAccept : gostring := [664%Z] ++ str "UnaryOperatorType".
Definition unaryMax : gostring := str "max" ++ [664%Z] ++ str "UnaryOperator".
Definition binaryAccept : gostring := [664%Z] ++ str "BinaryOperatorType".
Definition binaryMax : gostring := str "max" ++ [664%Z] ++ str "BinaryOpType".

(** The name a unary operator gets:
    <<
    apiName := strings.Title(strings.TrimSuffix(v, "OpType"))
    if apiName == "Ln" { apiName = "Log" }
    >> *)
Definition unaryApiName (v : gostring) : gostring :=
  let apiName := Title (TrimSuffix v opTypeSuffix) in
  if bool_decide (apiName = str "Ln") then str "Log" else apiName.

Definition unaryData (v : gostring) : Data :=
  [("FnName", VString (unaryApiName v)); ("OpType", VString v)].

(** The name a binary operator gets, with its [switch]. *)
Definition binaryApiName (v : gostring) : gostring :=
  let apiName := Title (TrimSuffix v opTypeSuffix) in
  if bool_decide (apiName = str "Mul") then str "HadamardProd"
  else if bool_decide (apiName = str "Div") then str "HadamardDiv"
  else apiName.

(** <<
    switch apiName {
    case "Lt", "Gt", "Lte", "Gte", "Eq", "Ne": data.AsSame = true
    }
    >> *)
Definition binaryAsSame (apiName : gostring) : bool :=
  bool_decide (apiName ∈ [str "Lt"; str "Gt"; str "Lte"; str "Gte";
                          str "Eq"; str "Ne"]).

Definition binaryData (v : gostring) : Data :=
  let apiName := binaryApiName v in
  [("FnName", VString apiName); ("OpType", VString v);
   ("AsSame", VBool (binaryAsSame apiName))].

(** The loop of a generator: one execution per name; what [Execute]
    returns is dropped. *)
Fixpoint renderAll (t : list Node) (data : gostring -> Data)
    (names : list gostring) (outFile : gostring) : gostring :=
  match names with
  | [] => outFile
  | v :: rest => renderAll t data rest (Execute t outFile (data v)).1
  end.

Definition generateUnary (g : Templates) (file : ParseResult)
    (outFile : gostring) : status :=
  match file with
  | ParseError => Fatal
  | Parsed decls =>
      match constTypes decls unaryAccept unaryMax with
      | Panics f => Panic f
      | Ret unaryNames =>
          Done (renderAll (unaryTemplate g) unaryData unaryNames outFile)
      end
  end.

Definition generateBinary (g : Templates) (file : ParseResult)
    (outFile : gostring) : status :=
  match file with
  | ParseError => Fatal
  | Parsed decls =>
      match constTypes decls binaryAccept binaryMax with
      | Panics f => Panic f
      | Ret binaryNames =>
          Done (renderAll (binaryTemplate g) binaryData binaryNames outFile)
      end
  end.

Definition genmsg : gostring :=
  str "// Code generated by genapi, which is a API generation tool for Gorgonia. DO NOT EDIT.".

(** What [main] prints first. *)
Definition header : gostring :=
  str "package gorgonia " ++ nl ++ nl ++ str "import (" ++ nl
  ++ tab ++ quote ++ str "gonum.org/v1/gonum/graph" ++ quote ++ nl
  ++ tab ++ quote ++ str "gorgonia.org/gorgonia/node" ++ quote ++ nl
  ++ tab ++ quote ++ str "gorgonia.org/gorgonia/ops" ++ quote ++ nl
  ++ str ")" ++ nl ++ nl ++ genmsg ++ nl ++ nl.

(** [main]: [opened] says whether [os.OpenFile] gave the output file,
    which it truncates. *)
Definition main (g : Templates) (opened : bool)
    (unaryFile binaryFile : ParseResult) : status :=
  if opened then
    match generateUnary g unaryFile header with
    | Done outFile => generateBinary g binaryFile outFile
    | s => s
    end
  else Fatal.
(** ** What the claims compare the generator with *)

(** A Go identifier, as the scanner reads one: a letter or underscore,
    then letters, digits and underscores. *)
Definition isLetterRune (r : rune) : bool :=
  between 97 122 r || between 65 90 r || (r =? 95)%Z
  || ((128 <=? r)%Z && tableIsLetter U r).

Definition isDigitRune (r : rune) : bool :=
  between 48 57 r || ((128 <=? r)%Z && tableIsDigit U r).

Definition identRune (r : rune) : bool := isLetterRune r || isDigitRune r.

Definition isIdentifier (s : gostring) : bool :=
  match s with
  | [] => false
  | r :: rest => isLetterRune r && forallb identRune rest
  end.

(** The first rune to title case. *)
Definition Capitalize (s : gostring) : gostring :=
  match s with
  | [] => []
  | r :: rest => unicodeToTitle r :: rest
  end.

(** What the parser gives: the specs of a [const] declaration are value
    specs, each with a name. *)
Definition wfSpec (s : Spec) : bool :=
  match s with
  | ValueSpec (_ :: _) _ => true
  | _ => false
  end.

Definition wfDecl (d : Decl) : bool :=
  match d with
  | GenDecl CONST specs => forallb wfSpec specs
  | _ => true
  end.

(** The first name of each member of a group, the sentinel left out. *)
Definition firstName (s : Spec) : option gostring :=
  match s with
  | ValueSpec (name :: _) _ => Some name
  | _ => None
  end.

Definition memberNames (specs : list Spec) (max : gostring) : list gostring :=
  filter (fun name => name <> max) (omap firstName specs).

(** A group matches when it is a [const] declaration whose first member
    is declared with the type [accept]. *)
Definition matchesGroup (accept : gostring) (d : Decl) : bool :=
  match d with
  | GenDecl CONST (ValueSpec _ (Some typ) :: _) =>
      bool_decide (match typ with Ident name => name | OtherExpr => [] end = accept)
  | _ => false
  end.

Definition groupSpecs (d : Decl) : list Spec :=
  match d with
  | GenDecl _ specs => specs
  | _ => []
  end.

(** The members of every matching group, in order. *)
Definition allGroupNames (decls : list Decl) (accept max : gostring)
  : list gostring :=
  d ← filter (fun d => matchesGroup accept d = true) decls;
  memberNames (groupSpecs d) max.

(** The members of the first matching group only, as the spec words the
    extraction. *)
Definition firstGroupNames (decls : list Decl) (accept max : gostring)
  : list gostring :=
  match find (matchesGroup accept) decls with
  | Some d => memberNames (groupSpecs d) max
  | None => []
  end.

(** The text of one unary operator. *)
Definition unaryText (fnName opType : gostring) : gostring :=
  str " // " ++ fnName ++ str " performs a pointwise " ++ ToLower fnName
  ++ str "." ++ nl
  ++ str "func " ++ fnName
  ++ str "(a *Node) (*Node, error) { return unaryOpNode(newElemUnaryOp("
  ++ opType ++ str ", a), a) }" ++ nl.

(** The two shapes of a binary function: it hands the operation to
    [binOpNode] as it is, or sets its [retSame] field first. *)
Definition directBody (opType : gostring) : gostring :=
  str "return binOpNode(newElemBinOp(" ++ opType ++ str ", a, b), a, b) ".

Definition retSameBody (opType : gostring) : gostring :=
  str "op := newElemBinOp(" ++ opType ++ str ", a, b)" ++ nl
  ++ tab ++ str "op.retSame = retSame" ++ nl
  ++ tab ++ str "return binOpNode(op, a, b)" ++ nl.

Definition retSameComment : gostring :=
  str "//" ++ tab
  ++ str "retSame indicates if the data type of the return value should be the same as the input data type. It defaults to Bool otherwise."
  ++ nl.

(** The factory [New<FnName>Operation]. *)
Definition factoryText (fnName opType : gostring) : gostring :=
  str "// " ++ fnName ++ str "Op ..." ++ nl
  ++ str "func New" ++ fnName ++ str "Operation() Operation {" ++ nl
  ++ tab ++ str "return func(g graph.WeightedDirected, n node.Node) (ops.Op, error) {" ++ nl
  ++ tab ++ tab ++ str "it := getOrderedChildren(g, n)" ++ nl
  ++ tab ++ tab ++ str "children := make([]*Node, it.Len())" ++ nl
  ++ tab ++ tab ++ str "for i := 0; it.Next(); i++ {" ++ nl
  ++ tab ++ tab ++ tab ++ str "children[i] = it.Node().(*Node)" ++ nl
  ++ tab ++ tab ++ str "}" ++ nl
  ++ tab ++ tab ++ str "return newElemBinOp(" ++ opType
  ++ str ", children[0], children[1]), nil" ++ nl
  ++ tab ++ str "}" ++ nl
  ++ str "}" ++ nl.

(** The text of one binary operator, by its three fields. *)
Definition binaryText (fnName opType : gostring) (asSame : bool) : gostring :=
  str "// " ++ fnName ++ str " perfors a pointwise " ++ ToLower fnName
  ++ str " operation." ++ nl
  ++ (if asSame then retSameComment else [])
  ++ str "func " ++ fnName ++ str "(a, b *Node"
  ++ (if asSame then str ", retSame bool" else [])
  ++ str ") (*Node, error) { "
  ++ (if asSame then retSameBody opType else directBody opType)
  ++ str "}" ++ nl ++ nl
  ++ factoryText fnName opType.

End WithUnicode.

(** Tables that know nothing beyond ASCII, to run the generator on ASCII
    names. *)
Definition asciiTables : UnicodeTables :=
  {| tableIsLetter := fun _ => false; tableIsDigit := fun _ => false;
     tableIsSpace := fun _ => false;
     tableToTitle := fun r => r; tableToLower := fun r => r |}.

(** ** Sample inputs *)

(** The catalog of the spec, [{Add, Sub, maxMarker}] of type [Kind], and
    a file with two groups of that type. *)
Definition sampleCatalog : list Decl :=
  [GenDecl CONST [ValueSpec [str "Add"] (Some (Ident (str "Kind")));
                  ValueSpec [str "Sub"] None;
                  ValueSpec [str "maxMarker"] None]].

Definition twoGroups : list Decl :=
  [GenDecl CONST [ValueSpec [str "Add"] (Some (Ident (str "Kind")))];
   FuncDecl;
   GenDecl CONST [ValueSpec [str "Sub"] (Some (Ident (str "Kind")))]].

(** A template with a field the data does not have, and a unary catalog
    of two operators. *)
Definition brokenTemplates : Templates :=
  {| unaryTemplate := [Text (str "func "); Action (Field "Name")];
     binaryTemplate := binaryTemplateTree |}.

Definition unaryCatalog : list Decl :=
  [GenDecl CONST [ValueSpec [str "absOpType"] (Some (Ident unaryAccept));
                  ValueSpec [str "signOpType"] None;
                  ValueSpec [unaryMax] None]].

End Genapi.

(** * Further classes of kinds *)

(** The IEEE kinds, where a NaN makes every comparison false. *)
Definition isFloatKind (k : Tensor.Kind) : bool :=
  match k with
  | Tensor.KFloat32 | Tensor.KFloat64
  | Tensor.KComplex64 | Tensor.KComplex128 => true
  | _ => false
  end.

(** A fault of a loop that ran on the tail of a slice, as the fault of
    the loop on the whole slice: [n] elements further. *)
Definition shiftFault (n : nat) (e : fault) : fault :=
  match e with
  | IndexOutOfRange i len => IndexOutOfRange (n + i) (n + len)
  | TypeAssertion => TypeAssertion
  end.

(** * Facts about the loops *)

Section RangeFacts.
Context {A B : Type}.

Lemma rangeFrom_ext {R} (f g : nat -> A -> R -> run R) i (a : list A) r :
  (forall j v s, f j v s = g j v s) ->
  rangeFrom f i a r = rangeFrom g i a r.
Proof.
  intros E. revert i r. induction a as [|v rest IH]; intros i r; simpl; [done|].
  rewrite E. destruct (g i v r) as [r'|e]; simpl; [apply IH | done].
Qed.

Lemma setIndex_next (done : list B) z rest y :
  setIndex (done ++ z :: rest) (length done) y = Ret (done ++ y :: rest).
Proof.
  unfold setIndex. rewrite decide_True by (rewrite length_app; simpl; lia).
  rewrite insert_app_r_alt by lia. by rewrite Nat.sub_diag.
Qed.

(** The loop over a fresh [make]: the slots below [i] are written, the
    others still hold the zero value. *)
Lemma rangeFrom_collect (g : nat -> A -> run B) (a : list A) (done : list B) z :
  rangeFrom (fun i v r => y ← g i v; setIndex r i y)
            (length done) a (done ++ make z (length a))
  = ys ← collect g (length done) a; Ret (done ++ ys).
Proof.
  revert done. induction a as [|v rest IH]; intros done; simpl.
  - done.
  - destruct (g (length done) v) as [y|e]; simpl; [|done].
    unfold make; simpl. rewrite setIndex_next. simpl.
    specialize (IH (done ++ [y])).
    rewrite length_app, Nat.add_1_r, <- app_assoc in IH. simpl in IH.
    unfold make in IH. rewrite IH.
    destruct (collect g (S (length done)) rest) as [ys|e]; simpl; [|done].
    by rewrite <- app_assoc.
Qed.

Lemma forRange_collect (g : nat -> A -> run B) (a : list A) z :
  forRange (fun i v r => y ← g i v; setIndex r i y) a (make z (length a))
  = collect g 0 a.
Proof.
  unfold forRange. pose proof (rangeFrom_collect g a [] z) as E.
  simpl in E. rewrite E. by destruct (collect g 0 a).
Qed.

Lemma collect_scalar (h : A -> B) i (a : list A) :
  collect (fun _ v => Ret (h v)) i a = Ret (h <$> a).
Proof.
  revert i. induction a as [|v rest IH]; intros i; simpl; [done|].
  by rewrite IH.
Qed.
End RangeFacts.

Section ArrayArrayFacts.
Context {A B : Type} (h : A -> A -> B).

(** Reading [b[i]] beside [a[i]]: the loop stops at the first index
    that [b] does not have, which is [length b]. *)
Lemma collect_array i (a b : list A) :
  i <= length b ->
  collect (fun j v => bj ← index b j; Ret (h v bj)) i a
  = if decide (i + length a <= length b)
    then Ret (zip_with h a (drop i b))
    else Panics (IndexOutOfRange (length b) (length b)).
Proof.
  revert i. induction a as [|v rest IH]; intros i Hi; simpl.
  - by rewrite decide_True by lia.
  - destruct (b !! i) as [bi|] eqn:Hb.
    + pose proof (lookup_lt_Some _ _ _ Hb) as Hlt.
      assert (index b i = Ret bi) as -> by (unfold index; by rewrite Hb).
      rewrite IH by lia.
      rewrite (drop_S _ _ _ Hb). simpl.
      destruct (decide (S i + length rest <= length b));
        [rewrite !decide_True by lia | rewrite !decide_False by lia]; done.
    + apply lookup_ge_None in Hb.
      assert (i = length b) as -> by lia.
      assert (index b (length b) = Panics (IndexOutOfRange (length b) (length b)))
        as -> by (unfold index; by rewrite (lookup_ge_None_2 b (length b))).
      by rewrite decide_False by lia.
Qed.
End ArrayArrayFacts.

Module TensorFacts.
Import Tensor.

Section Characterisation.
Context {A : Type} (op : A -> A -> bool).

Lemma kernDDBools_eq (a b : list A) :
  kernDDBools op a b
  = if decide (length a <= length b) then Ret (zip_with op a b)
    else Panics (IndexOutOfRange (length b) (length b)).
Proof.
  unfold kernDDBools, forRange.
  rewrite (rangeFrom_ext _
    (fun i v r => y ← (bi ← index b i; Ret (op v bi)); setIndex r i y)).
  2:{ intros j v r. by destruct (index b j). }
  pose proof (forRange_collect
    (fun i v => bi ← index b i; Ret (op v bi)) a false) as E.
  unfold forRange in E. rewrite E.
  rewrite (collect_array op) by lia. by rewrite drop_0.
Qed.

Lemma kernDSBools_eq (a : list A) (b : A) :
  kernDSBools op a b = Ret ((fun v => op v b) <$> a).
Proof.
  unfold kernDSBools, forRange.
  rewrite (rangeFrom_ext _
    (fun i v r => y ← Ret (op v b); setIndex r i y)) by done.
  pose proof (forRange_collect (fun (_ : nat) v => Ret (op v b)) a false) as E.
  unfold forRange in E. rewrite E. apply collect_scalar.
Qed.

Lemma kernDDSame_eq one zero (a b : list A) :
  kernDDSame op one zero a b
  = if decide (length a <= length b)
    then Ret (zip_with (indicator op one zero) a b)
    else Panics (IndexOutOfRange (length b) (length b)).
Proof.
  unfold kernDDSame, forRange.
  rewrite (rangeFrom_ext _
    (fun i v r => y ← (bi ← index b i; Ret (indicator op one zero v bi));
                  setIndex r i y)).
  2:{ intros j v r. unfold indicator. destruct (index b j) as [bj|]; simpl; [|done].
      by destruct (op v bj). }
  pose proof (forRange_collect
    (fun i v => bi ← index b i; Ret (indicator op one zero v bi)) a zero) as E.
  unfold forRange in E. rewrite E.
  rewrite (collect_array (indicator op one zero)) by lia. by rewrite drop_0.
Qed.

Lemma kernDSSame_eq one zero (a : list A) (b : A) :
  kernDSSame op one zero a b = Ret ((fun v => indicator op one zero v b) <$> a).
Proof.
  unfold kernDSSame, forRange.
  rewrite (rangeFrom_ext _
    (fun i v r => y ← Ret (indicator op one zero v b); setIndex r i y)).
  2:{ intros j v r. unfold indicator. by destruct (op v b). }
  pose proof (forRange_collect
    (fun (_ : nat) v => Ret (indicator op one zero v b)) a zero) as E.
  unfold forRange in E. rewrite E. apply collect_scalar.
Qed.
End Characterisation.

Lemma hasKernel_Bools op sh k : hasKernel op sh Bools k = supports op k.
Proof. destruct op, sh, k; vm_compute; reflexivity. Qed.

Lemma hasKernel_Same op sh k :
  hasKernel op sh Same k
  = supports op k && negb (isBoolKind k || isStringKind k || isPointerKind k).
Proof. destruct op, sh, k; vm_compute; reflexivity. Qed.

Lemma hasKernel_Same_const op sh k :
  hasKernel op sh Same k = true ->
  exists f one zero, goCmp op k = Some f /\ goConst10 k = Some (one, zero) /\ one <> zero.
Proof.
  assert (1%float <> 0%float) as Hf.
  { intros E. assert (PrimFloat.eqb 1 1 = PrimFloat.eqb 1 0) as E'
      by (rewrite E at 2; reflexivity).
    vm_compute in E'. discriminate. }
  rewrite hasKernel_Same. unfold supports.
  destruct (goCmp op k) as [f|] eqn:Hc; [|discriminate].
  intros Hk. exists f.
  destruct k; simpl in Hk; try discriminate; simpl;
    eexists _, _; (split; [reflexivity|]); (split; [reflexivity|]);
    first [ discriminate | exact Hf | (intros [= E]; by apply Hf) ].
Qed.

Lemma compareArrayArray_Some op k kern :
  compareArrayArray op k = Some kern ->
  exists f, goCmp op k = Some f /\ kern = kernDDBools f.
Proof.
  unfold compareArrayArray. destruct (hasKernel op DD Bools k); [|discriminate].
  destruct (goCmp op k) as [f|]; simpl; [|discriminate]. intros [= <-]. eauto.
Qed.

Lemma compareArrayScalar_Some op k kern :
  compareArrayScalar op k = Some kern ->
  exists f, goCmp op k = Some f /\ kern = kernDSBools f.
Proof.
  unfold compareArrayScalar. destruct (hasKernel op DS Bools k); [|discriminate].
  destruct (goCmp op k) as [f|]; simpl; [|discriminate]. intros [= <-]. eauto.
Qed.

Lemma compareArrayArraySame_Some op k kern :
  compareArrayArraySame op k = Some kern ->
  exists f one zero, goCmp op k = Some f /\ goConst10 k = Some (one, zero)
    /\ kern = kernDDSame f one zero.
Proof.
  unfold compareArrayArraySame. destruct (hasKernel op DD Same k); [|discriminate].
  destruct (goCmp op k) as [f|]; simpl; [|discriminate].
  destruct (goConst10 k) as [[one zero]|]; simpl; [|discriminate].
  intros [= <-]. eauto 6.
Qed.

Lemma compareArrayScalarSame_Some op k kern :
  compareArrayScalarSame op k = Some kern ->
  exists f one zero, goCmp op k = Some f /\ goConst10 k = Some (one, zero)
    /\ kern = kernDSSame f one zero.
Proof.
  unfold compareArrayScalarSame. destruct (hasKernel op DS Same k); [|discriminate].
  destruct (goCmp op k) as [f|]; simpl; [|discriminate].
  destruct (goConst10 k) as [[one zero]|]; simpl; [|discriminate].
  intros [= <-]. eauto 6.
Qed.

Lemma compareArrayArray_supported op k f :
  goCmp op k = Some f -> compareArrayArray op k = Some (kernDDBools f).
Proof.
  intros Hf. unfold compareArrayArray. rewrite hasKernel_Bools. unfold supports.
  by rewrite Hf.
Qed.

Lemma compareArrayScalar_supported op k f :
  goCmp op k = Some f -> compareArrayScalar op k = Some (kernDSBools f).
Proof.
  intros Hf. unfold compareArrayScalar. rewrite hasKernel_Bools. unfold supports.
  by rewrite Hf.
Qed.

Lemma compareArrayArraySame_exists op k f one zero :
  hasKernel op DD Same k = true ->
  goCmp op k = Some f -> goConst10 k = Some (one, zero) ->
  compareArrayArraySame op k = Some (kernDDSame f one zero).
Proof.
  intros Hk Hf Hc. unfold compareArrayArraySame. by rewrite Hk, Hf, Hc.
Qed.

Lemma compareArrayScalarSame_exists op k f one zero :
  hasKernel op DS Same k = true ->
  goCmp op k = Some f -> goConst10 k = Some (one, zero) ->
  compareArrayScalarSame op k = Some (kernDSSame f one zero).
Proof.
  intros Hk Hf Hc. unfold compareArrayScalarSame. by rewrite Hk, Hf, Hc.
Qed.

End TensorFacts.

(** * Facts about the heap model *)

Module HeapFacts.
Import Heap.

Section Facts.
Context {V : Type}.
Implicit Types (h : store V) (s a b : slice) (la : list V).

Lemma contents_length h s la : contents h s = Some la -> length la = sLen s.
Proof.
  unfold contents. destruct (h !! sArr s) as [cells|]; simpl; [|done].
  case_decide; [|done]. intros [= <-]. rewrite length_take, length_drop. lia.
Qed.

Lemma contents_dom h s la : contents h s = Some la -> sArr s ∈ dom h.
Proof.
  unfold contents. destruct (h !! sArr s) eqn:E; simpl; [|done].
  intros _. apply elem_of_dom. eauto.
Qed.

Lemma contents_insert_ne h s l0 c :
  sArr s <> l0 -> contents (<[l0:=c]> h) s = contents h s.
Proof. intros. unfold contents. by rewrite lookup_insert_ne. Qed.

Lemma contents_fresh h s la l0 c :
  contents h s = Some la -> l0 ∉ dom h -> contents (<[l0:=c]> h) s = Some la.
Proof.
  intros Hc Hl. rewrite contents_insert_ne; [done|].
  intros <-. by apply Hl, (contents_dom _ _ la).
Qed.

Lemma contents_whole h l0 c :
  contents (<[l0:=c]> h) (Slice l0 0 (length c)) = Some c.
Proof.
  unfold contents. simpl. rewrite lookup_insert_eq. simpl.
  rewrite decide_True by lia. by rewrite drop_0, firstn_all.
Qed.

Lemma load_contents h s la i :
  contents h s = Some la -> load s i h = (index la i, h).
Proof.
  intros Hc. pose proof (contents_length _ _ _ Hc) as Hlen.
  unfold contents in Hc. unfold load, index.
  destruct (h !! sArr s) as [cells|]; simpl in *; [|done].
  case_decide; [|done]. injection Hc as <-.
  destruct (decide (i < sLen s)).
  - rewrite lookup_take_lt, lookup_drop by done.
    destruct (cells !! (sOff s + i)) eqn:E; [done|].
    apply lookup_ge_None in E. lia.
  - rewrite lookup_take_ge by lia. by rewrite Hlen.
Qed.

Lemma storeAt_next h l0 n (done : list V) z rest y :
  length done < n ->
  storeAt (Slice l0 0 n) (length done) y (<[l0 := done ++ z :: rest]> h)
  = (Ret (), <[l0 := done ++ y :: rest]> h).
Proof.
  intros Hn. unfold storeAt. simpl. rewrite decide_True by done.
  rewrite lookup_insert_eq, insert_insert_eq.
  rewrite insert_app_r_alt by lia. by rewrite Nat.sub_diag.
Qed.

Lemma rangeSlice_ext (f g : nat -> V -> act V unit) a i n h :
  (forall j v h', f j v h' = g j v h') ->
  rangeSlice f a i n h = rangeSlice g a i n h.
Proof.
  intros E. revert i h. induction n as [|n IH]; intros i h; simpl; [done|].
  unfold abind. destruct (load a i h) as [[v|e] h1]; [|done].
  rewrite E. destruct (g i v h1) as [[[]|e] h2]; [apply IH|done].
Qed.

(** The loop of a kernel over the fresh array at [l0]: the slots below
    [i] are written, the others hold the zero value; [rhs] computes the
    stored value and, on stores that differ from [h] at [l0] only, is
    the pure [g]. *)
Lemma rangeSlice_fill h a la l0 zero
    (rhs : nat -> V -> act V V) (g : nat -> V -> run V) :
  contents h a = Some la -> l0 ∉ dom h ->
  (forall i v c, rhs i v (<[l0:=c]> h) = (g i v, <[l0:=c]> h)) ->
  forall n (done : list V),
    length done + n = sLen a ->
    exists cells,
      rangeSlice (fun i v => abind (rhs i v) (storeAt (Slice l0 0 (sLen a)) i))
                 a (length done) n (<[l0 := done ++ replicate n zero]> h)
      = (collect g (length done) (drop (length done) la) ≫= (fun _ => Ret ()),
         <[l0 := cells]> h)
      /\ forall ys, collect g (length done) (drop (length done) la) = Ret ys ->
                    cells = done ++ ys.
Proof.
  intros Ha Hl Hrhs. pose proof (contents_length _ _ _ Ha) as Hlen.
  induction n as [|n IH]; intros done Hn.
  - exists (done ++ []). rewrite drop_ge by lia. simpl. split; [done|].
    by intros ys [= <-].
  - simpl. unfold abind at 1.
    rewrite (load_contents _ _ la) by by apply contents_fresh.
    destruct (la !! length done) as [v|] eqn:Hv;
      [|apply lookup_ge_None in Hv; lia].
    unfold index. rewrite Hv, (drop_S _ _ _ Hv). simpl.
    unfold abind at 1. unfold abind at 1. rewrite Hrhs.
    destruct (g (length done) v) as [y|e]; simpl.
    + rewrite storeAt_next by lia.
      destruct (IH (done ++ [y])) as (cells & E & Hc).
      { rewrite length_app. simpl. lia. }
      rewrite length_app, Nat.add_1_r, <- app_assoc in E. simpl in E.
      rewrite length_app, Nat.add_1_r in Hc.
      exists cells. rewrite E. split.
      * by destruct (collect g (S (length done)) (drop (S (length done)) la)).
      * intros ys. destruct (collect g _ _) as [ys'|]; simpl; [|done].
        intros [= <-]. rewrite (Hc ys' eq_refl). by rewrite <- app_assoc.
    + eexists. split; [done|]. done.
Qed.

(** A kernel, as [make] followed by such a loop. *)
Lemma fill_spec h a la zero
    (body : slice -> nat -> V -> act V unit)
    (rhs : nat -> V -> act V V) (g : nat -> V -> run V) :
  contents h a = Some la ->
  (forall r j v h', body r j v h' = abind (rhs j v) (storeAt r j) h') ->
  (forall i v c,
      rhs i v (<[fresh (dom h):=c]> h) = (g i v, <[fresh (dom h):=c]> h)) ->
  exists cells,
    abind (makeSlice zero (sLen a)) (fun retVal =>
    abind (rangeSlice (body retVal) a 0 (sLen a)) (fun _ => aret retVal)) h
    = (collect g 0 la ≫= (fun _ => Ret (Slice (fresh (dom h)) 0 (sLen a))),
       <[fresh (dom h) := cells]> h)
    /\ forall ys, collect g 0 la = Ret ys -> cells = ys.
Proof.
  intros Ha Hbody Hrhs.
  destruct (rangeSlice_fill h a la (fresh (dom h)) zero rhs g Ha
              (is_fresh (dom h)) Hrhs (sLen a) [] eq_refl) as (cells & E & Hc).
  simpl in E, Hc. rewrite drop_0 in E, Hc.
  exists cells. split; [|done].
  unfold abind at 1. unfold makeSlice. unfold abind at 1.
  rewrite (rangeSlice_ext (body (Slice (fresh (dom h)) 0 (sLen a)))
             (fun i v => abind (rhs i v)
                           (storeAt (Slice (fresh (dom h)) 0 (sLen a)) i)))
    by apply Hbody.
  rewrite E. by destruct (collect g 0 la).
Qed.

Lemma pureCall_intro h inputs n (res : run (list V)) cells :
  Forall (fun s => is_Some (contents h s)) inputs ->
  (forall ys, res = Ret ys -> cells = ys /\ length ys = n) ->
  pureCall h inputs
    (res ≫= (fun _ => Ret (Slice (fresh (dom h)) 0 n)),
     <[fresh (dom h) := cells]> h) res.
Proof.
  intros Hin Hres. pose proof (is_fresh (dom h)) as Hl.
  split; [|split; [|split]]; simpl.
  - intros p Hp. rewrite lookup_insert_ne; [done|]. by intros <-.
  - eapply Forall_impl; [exact Hin|]. intros s [la Hs]. simpl.
    by rewrite (contents_fresh _ _ la), Hs.
  - destruct res as [ys|e]; simpl; [|done]. split; [done|].
    destruct (Hres ys eq_refl) as [-> <-].
    exists ys. split; [done|]. apply contents_whole.
  - destruct res as [ys|e]; simpl; [|done]. intros r [= <-]. simpl.
    eapply Forall_impl; [exact Hin|]. intros s [la Hs]. simpl.
    intros E. apply Hl. rewrite E. by apply (contents_dom _ _ la).
Qed.

Lemma collect_length {A B} (g : nat -> A -> run B) i (a : list A) ys :
  collect g i a = Ret ys -> length ys = length a.
Proof.
  revert i ys. induction a as [|v rest IH]; intros i ys; simpl.
  - by intros [= <-].
  - destruct (g i v) as [y|]; simpl; [|done].
    destruct (collect g (S i) rest) as [zs|] eqn:E; simpl; [|done].
    intros [= <-]. simpl. f_equal. by eapply IH.
Qed.

Lemma fill_pureCall h a la zero inputs
    (body : slice -> nat -> V -> act V unit)
    (rhs : nat -> V -> act V V) (g : nat -> V -> run V) :
  contents h a = Some la ->
  Forall (fun s => is_Some (contents h s)) inputs ->
  (forall r j v h', body r j v h' = abind (rhs j v) (storeAt r j) h') ->
  (forall i v c,
      rhs i v (<[fresh (dom h):=c]> h) = (g i v, <[fresh (dom h):=c]> h)) ->
  pureCall h inputs
    (abind (makeSlice zero (sLen a)) (fun retVal =>
     abind (rangeSlice (body retVal) a 0 (sLen a)) (fun _ => aret retVal)) h)
    (collect g 0 la).
Proof.
  intros Ha Hin Hbody Hrhs.
  destruct (fill_spec h a la zero body rhs g Ha Hbody Hrhs) as (cells & -> & Hc).
  apply pureCall_intro; [done|].
  intros ys Hys. split; [by apply Hc|].
  rewrite (collect_length _ _ _ _ Hys). by apply contents_length in Ha.
Qed.

Lemma kernDDBools_pure h a b la lb (f : V -> V -> V) zero :
  contents h a = Some la -> contents h b = Some lb ->
  pureCall h [a; b] (kernDDBools f zero a b h)
    (if decide (length la <= length lb) then Ret (zip_with f la lb)
     else Panics (IndexOutOfRange (length lb) (length lb))).
Proof.
  intros Ha Hb.
  pose proof (collect_array f 0 la lb ltac:(lia)) as E.
  rewrite drop_0 in E. simpl in E. rewrite <- E.
  apply (fill_pureCall h a la zero [a; b]
           (fun r i v => abind (load b i) (fun bi => storeAt r i (f v bi)))
           (fun i v => abind (load b i) (fun bi => aret (f v bi)))).
  - done.
  - repeat constructor; eauto.
  - intros r j v h'. unfold abind. by destruct (load b j h') as [[bi|e] h2].
  - intros i v c. unfold abind.
    rewrite (load_contents _ _ lb) by by apply contents_fresh, is_fresh.
    by destruct (index lb i).
Qed.

Lemma kernDSBools_pure h a la (f : V -> V -> V) zero (c : V) :
  contents h a = Some la ->
  pureCall h [a] (kernDSBools f zero a c h) (Ret ((fun v => f v c) <$> la)).
Proof.
  intros Ha.
  rewrite <- (collect_scalar (fun v => f v c) 0 la).
  apply (fill_pureCall h a la zero [a]
           (fun r i v => storeAt r i (f v c))
           (fun i v => aret (f v c))).
  - done.
  - repeat constructor; eauto.
  - done.
  - done.
Qed.

Lemma kernDDSame_pure h a b la lb (op : V -> V -> bool) one zero :
  contents h a = Some la -> contents h b = Some lb ->
  pureCall h [a; b] (kernDDSame op one zero a b h)
    (Tensor.kernDDSame op one zero la lb).
Proof.
  intros Ha Hb. rewrite TensorFacts.kernDDSame_eq.
  pose proof (collect_array (Tensor.indicator op one zero) 0 la lb
                ltac:(lia)) as E.
  rewrite drop_0 in E. simpl in E. rewrite <- E.
  apply (fill_pureCall h a la zero [a; b]
           (fun r i v => abind (load b i) (fun bi =>
                           if op v bi then storeAt r i one
                           else storeAt r i zero))
           (fun i v => abind (load b i) (fun bi =>
                         aret (Tensor.indicator op one zero v bi)))).
  - done.
  - repeat constructor; eauto.
  - intros r j v h'. unfold abind, Tensor.indicator.
    destruct (load b j h') as [[bi|e] h2]; [|done]. by destruct (op v bi).
  - intros i v c. unfold abind.
    rewrite (load_contents _ _ lb) by by apply contents_fresh, is_fresh.
    by destruct (index lb i).
Qed.

Lemma kernDSSame_pure h a la (op : V -> V -> bool) one zero (c : V) :
  contents h a = Some la ->
  pureCall h [a] (kernDSSame op one zero a c h)
    (Tensor.kernDSSame op one zero la c).
Proof.
  intros Ha. rewrite TensorFacts.kernDSSame_eq.
  rewrite <- (collect_scalar (fun v => Tensor.indicator op one zero v c) 0 la).
  apply (fill_pureCall h a la zero [a]
           (fun r i v => if op v c then storeAt r i one else storeAt r i zero)
           (fun i v => aret (Tensor.indicator op one zero v c))).
  - done.
  - repeat constructor; eauto.
  - intros r j v h'. unfold abind, Tensor.indicator, aret.
    by destruct (op v c).
  - done.
Qed.
End Facts.

(** At [bool] the mask kernel on the heap is the mask kernel on lists. *)
Lemma eqDDBoolsB_pure (h : store bool) a b la lb :
  contents h a = Some la -> contents h b = Some lb ->
  pureCall h [a; b] (Heap.eqDDBoolsB a b h) (Tensor.eqDDBoolsB la lb).
Proof.
  intros Ha Hb. unfold Tensor.eqDDBoolsB. rewrite TensorFacts.kernDDBools_eq.
  by apply kernDDBools_pure.
Qed.

End HeapFacts.

(** * Facts about the generator *)

Module GenapiFacts.
Import Genapi.

Lemma Token_String_const (t : Token) : Token_String t = str "const" <-> t = CONST.
Proof. destruct t; vm_compute; split; congruence. Qed.

Lemma collectNames_spec (specs : list Spec) (max : gostring) (names : list gostring) :
  forallb wfSpec specs = true ->
  collectNames specs max names = Ret (names ++ memberNames specs max).
Proof.
  revert names. induction specs as [|s rest IH]; intros names H; simpl in *.
  - by rewrite app_nil_r.
  - apply andb_prop in H as [Hs Hr].
    destruct s as [|[|name more] typ|]; try done. simpl.
    unfold memberNames in *. simpl. rewrite filter_cons.
    case_bool_decide as Hmax.
    + rewrite decide_False by (intros Hne; by apply Hne). by apply IH.
    + rewrite decide_True by done. rewrite IH by done.
      by rewrite <- app_assoc.
Qed.

Lemma constTypesFrom_spec (decls : list Decl) (accept max : gostring)
    (names : list gostring) :
  forallb wfDecl decls = true ->
  constTypesFrom decls accept max names
  = Ret (names ++ allGroupNames decls accept max).
Proof.
  unfold allGroupNames.
  revert names. induction decls as [|d rest IH]; intros names H; simpl in *.
  - by rewrite app_nil_r.
  - apply andb_prop in H as [Hd Hr]. rewrite filter_cons.
    destruct d as [|tok specs|]; simpl; try (by apply IH).
    destruct tok; simpl; try (by apply IH).
    simpl in Hd.
    destruct specs as [|spec0 more]; simpl; [by apply IH|].
    simpl in Hd. apply andb_prop in Hd as [H0 Hmore].
    destruct spec0 as [|[|name others] typ|]; try done. simpl.
    destruct typ as [typ|]; simpl; [|by apply IH].
    case_bool_decide as Hacc.
    + rewrite decide_False by (rewrite bool_decide_eq_true; done). by apply IH.
    + assert (match typ with Ident n => n | OtherExpr => [] end = accept) as Heq
        by (destruct (decide (match typ with Ident n => n | OtherExpr => [] end
                              = accept)); [done|by destruct Hacc]).
      rewrite decide_True by (by rewrite bool_decide_eq_true).
      pose proof (collectNames_spec (ValueSpec (name :: others) (Some typ) :: more)
                    max names) as E.
      simpl in E. rewrite E by (by rewrite Hmore).
      simpl. rewrite IH by done. by rewrite <- app_assoc.
Qed.

Lemma allGroupNames_first (decls : list Decl) (accept max : gostring) :
  length (filter (fun d => matchesGroup accept d = true) decls) <= 1 ->
  allGroupNames decls accept max = firstGroupNames decls accept max.
Proof.
  unfold allGroupNames, firstGroupNames.
  induction decls as [|d rest IH]; simpl; [done|].
  rewrite filter_cons. destruct (matchesGroup accept d) eqn:Hm.
  - rewrite decide_True by done. simpl. intros Hlen.
    destruct (filter _ rest) as [|d' ds]; [|simpl in Hlen; lia].
    simpl. by rewrite app_nil_r.
  - rewrite decide_False by done. apply IH.
Qed.

Section Names.
Variable U : UnicodeTables.

Lemma identRune_not_separator (r : rune) :
  identRune U r = true -> isSeparator U r = false.
Proof.
  unfold identRune, isLetterRune, isDigitRune, isSeparator, between.
  repeat match goal with
         | |- context [(?a <=? ?b)%Z] => destruct (Z.leb_spec a b)
         | |- context [(?a =? ?b)%Z] => destruct (Z.eqb_spec a b)
         end; simpl; try done; try lia.
  by intros ->.
Qed.

Lemma titleFrom_ident (prev : rune) (s : gostring) :
  isSeparator U prev = false -> forallb (identRune U) s = true ->
  titleFrom U prev s = s.
Proof.
  revert prev. induction s as [|r rest IH]; intros prev Hp Hs; simpl in *; [done|].
  apply andb_prop in Hs as [Hr Hrest]. rewrite Hp. f_equal.
  apply IH; [by apply identRune_not_separator|done].
Qed.

Lemma Title_Capitalize (s : gostring) :
  forallb (identRune U) s = true -> Title U s = Capitalize U s.
Proof.
  destruct s as [|r rest]; [done|]. simpl. intros [Hr Hrest]%andb_prop.
  unfold Title. simpl. f_equal.
  apply titleFrom_ident; [by apply identRune_not_separator|done].
Qed.

Lemma isIdentifier_identRunes (s : gostring) :
  isIdentifier U s = true -> forallb (identRune U) s = true.
Proof.
  destruct s as [|r rest]; [done|]. simpl. intros [Hr Hrest]%andb_prop.
  unfold identRune at 1. by rewrite Hr, Hrest.
Qed.

Lemma forallb_take {A} (p : A -> bool) n (s : list A) :
  forallb p s = true -> forallb p (take n s) = true.
Proof.
  revert n. induction s as [|x rest IH]; intros [|n]; simpl; try done.
  intros [Hx Hr]%andb_prop. rewrite Hx. by apply IH.
Qed.

Lemma TrimSuffix_identRunes (s suffix : gostring) :
  forallb (identRune U) s = true ->
  forallb (identRune U) (TrimSuffix s suffix) = true.
Proof.
  intros H. unfold TrimSuffix. destruct (HasSuffix s suffix); [|done].
  by apply forallb_take.
Qed.

(** The templates of the generator never fail, and write this. *)
Lemma Execute_unary (fnName opType outFile : gostring) :
  Execute U unaryTemplateTree outFile
    [("FnName", VString fnName); ("OpType", VString opType)]
  = (outFile ++ unaryText U fnName opType, None).
Proof.
  unfold Execute, unaryText. simpl. by rewrite <- !app_assoc.
Qed.

Lemma Execute_binary (fnName opType outFile : gostring) (asSame : bool) :
  Execute U binaryTemplateTree outFile
    [("FnName", VString fnName); ("OpType", VString opType);
     ("AsSame", VBool asSame)]
  = (outFile ++ binaryText U fnName opType asSame, None).
Proof.
  unfold Execute, binaryText, factoryText, retSameBody, directBody, retSameComment.
  destruct asSame; simpl; by rewrite <- !app_assoc.
Qed.

Lemma renderAll_texts (t : list Node) (data : gostring -> Data)
    (text : gostring -> gostring) (names : list gostring) (outFile : gostring) :
  (forall v out, Execute U t out (data v) = (out ++ text v, None)) ->
  renderAll U t data names outFile = outFile ++ mjoin (text <$> names).
Proof.
  intros E. revert outFile.
  induction names as [|v rest IH]; intros outFile; simpl.
  - by rewrite app_nil_r.
  - rewrite E. simpl. rewrite IH. by rewrite <- app_assoc.
Qed.
End Names.

End GenapiFacts.

(** * The kernel matrix: the claims *)

Import Tensor TensorFacts.

Section IndicatorFacts.
Context {A : Type} (f : A -> A -> bool) (one zero : A).
Hypothesis one_zero : one <> zero.

Lemma indicator_zip_lookup (a b : list A) i :
  (zip_with (indicator f one zero) a b !! i = Some one
     <-> zip_with f a b !! i = Some true) /\
  (zip_with (indicator f one zero) a b !! i = Some zero
     <-> zip_with f a b !! i = Some false).
Proof using one_zero.
  rewrite !lookup_zip_with. unfold indicator.
  destruct (a !! i) as [x|], (b !! i) as [y|]; simpl; try naive_solver.
  destruct (f x y); naive_solver.
Qed.

Lemma indicator_fmap_lookup (a : list A) (c : A) i :
  (((fun v => indicator f one zero v c) <$> a) !! i = Some one
     <-> ((fun v => f v c) <$> a) !! i = Some true) /\
  (((fun v => indicator f one zero v c) <$> a) !! i = Some zero
     <-> ((fun v => f v c) <$> a) !! i = Some false).
Proof using one_zero.
  rewrite !list_lookup_fmap. unfold indicator.
  destruct (a !! i) as [x|]; simpl; try naive_solver.
  destruct (f x c); naive_solver.
Qed.
End IndicatorFacts.

(** C1. Wherever Go has the operator [op] at kind [k], both boolean-mask
    kernels exist; on inputs of one length [n] the array-array kernel
    returns [n] booleans, the [i]-th being [op a[i] b[i]], and the
    array-scalar kernel returns [n] booleans, the [i]-th being
    [op a[i] b].  The two concrete cases of the spec are instances. *)
Theorem C1_bool_mask_kernels :
  (forall (op : Op) (k : Kind) (f : elem k -> elem k -> bool),
     goCmp op k = Some f ->
     exists kdd kds,
       compareArrayArray op k = Some kdd /\
       compareArrayScalar op k = Some kds /\
       (forall a b : list (elem k),
          length a = length b ->
          exists r, kdd a b = Ret r /\ length r = length a /\
            forall i x y, a !! i = Some x -> b !! i = Some y ->
                          r !! i = Some (f x y)) /\
       (forall (a : list (elem k)) (c : elem k),
          exists r, kds a c = Ret r /\ length r = length a /\
            forall i x, a !! i = Some x -> r !! i = Some (f x c)))
  /\ compareArrayArray EqOp KInt = Some eqDDBoolsI
  /\ eqDDBoolsI [1; 2; 3]%Z [1; 5; 3]%Z = Ret [true; false; true]
  /\ compareArrayScalar EqOp KInt = Some eqDSBoolsI
  /\ eqDSBoolsI [1; 2; 3]%Z 2%Z = Ret [false; true; false].
Proof.
  split; [|repeat split; reflexivity].
  intros op k f Hf. exists (kernDDBools f), (kernDSBools f).
  split; [by apply compareArrayArray_supported|].
  split; [by apply compareArrayScalar_supported|].
  split.
  - intros a b Hlen. exists (zip_with f a b).
    rewrite kernDDBools_eq, decide_True by lia.
    split; [done|]. split; [by apply length_zip_with_l_eq|].
    intros i x y Ha Hb. by rewrite lookup_zip_with, Ha, Hb.
  - intros a c. exists ((fun v => f v c) <$> a).
    rewrite kernDSBools_eq. split; [done|]. split; [apply length_fmap|].
    intros i x Ha. by rewrite list_lookup_fmap, Ha.
Qed.

Lemma C1_bool_mask_kernels_witness :
  goCmp EqOp KInt = Some Z.eqb /\
  exists kdd kds,
    compareArrayArray EqOp KInt = Some kdd /\
    compareArrayScalar EqOp KInt = Some kds /\
    (forall a b : list Z,
       length a = length b ->
       exists r, kdd a b = Ret r /\ length r = length a /\
         forall i x y, a !! i = Some x -> b !! i = Some y ->
                       r !! i = Some (Z.eqb x y)) /\
    (forall (a : list Z) (c : Z),
       exists r, kds a c = Ret r /\ length r = length a /\
         forall i x, a !! i = Some x -> r !! i = Some (Z.eqb x c)).
Proof.
  split; [reflexivity|].
  exact (proj1 C1_bool_mask_kernels EqOp KInt Z.eqb eq_refl).
Defined.

(** C2. Wherever a same-type kernel exists, the constants 1 and 0 of the
    kind are distinct, the boolean-mask kernel of the same operator,
    kind and shape exists too, and on inputs of one length the two
    results agree slot by slot: 1 exactly where the mask is true, 0
    exactly where it is false.  [eqDDSameI [1,2,3] [1,5,3] = [1,0,1]]. *)
Theorem C2_same_agrees_with_mask :
  (forall (op : Op) (k : Kind),
     hasKernel op DD Same k = true ->
     exists one zero kdd kdds kds kdss,
       goConst10 k = Some (one, zero) /\ one <> zero /\
       compareArrayArray op k = Some kdd /\
       compareArrayArraySame op k = Some kdds /\
       compareArrayScalar op k = Some kds /\
       compareArrayScalarSame op k = Some kdss /\
       (forall a b : list (elem k),
          length a = length b ->
          exists m s, kdd a b = Ret m /\ kdds a b = Ret s /\
            length s = length m /\
            forall i, (s !! i = Some one <-> m !! i = Some true) /\
                      (s !! i = Some zero <-> m !! i = Some false)) /\
       (forall (a : list (elem k)) (c : elem k),
          exists m s, kds a c = Ret m /\ kdss a c = Ret s /\
            length s = length m /\
            forall i, (s !! i = Some one <-> m !! i = Some true) /\
                      (s !! i = Some zero <-> m !! i = Some false)))
  /\ compareArrayArraySame EqOp KInt = Some eqDDSameI
  /\ eqDDSameI [1; 2; 3]%Z [1; 5; 3]%Z = Ret [1; 0; 1]%Z.
Proof.
  split; [|split; reflexivity].
  intros op k Hk.
  destruct (hasKernel_Same_const _ _ _ Hk) as (f & one & zero & Hf & Hc & Hne).
  assert (hasKernel op DS Same k = true) as Hk'
    by (rewrite hasKernel_Same in Hk |- *; done).
  exists one, zero, (kernDDBools f), (kernDDSame f one zero),
         (kernDSBools f), (kernDSSame f one zero).
  split; [done|]. split; [done|].
  split; [by apply compareArrayArray_supported|].
  split; [by apply compareArrayArraySame_exists|].
  split; [by apply compareArrayScalar_supported|].
  split; [by apply compareArrayScalarSame_exists|].
  split.
  - intros a b Hlen.
    exists (zip_with f a b), (zip_with (indicator f one zero) a b).
    rewrite kernDDBools_eq, kernDDSame_eq, !decide_True by lia.
    split; [done|]. split; [done|].
    split; [by rewrite !length_zip_with|].
    intros i. by apply indicator_zip_lookup.
  - intros a c.
    exists ((fun v => f v c) <$> a), ((fun v => indicator f one zero v c) <$> a).
    rewrite kernDSBools_eq, kernDSSame_eq.
    split; [done|]. split; [done|].
    split; [by rewrite !length_fmap|].
    intros i. by apply indicator_fmap_lookup.
Qed.

Lemma C2_same_agrees_with_mask_witness :
  hasKernel EqOp DD Same KInt = true /\
  exists (one zero : Z) kdd kdds kds kdss,
    goConst10 KInt = Some (one, zero) /\ one <> zero /\
    compareArrayArray EqOp KInt = Some kdd /\
    compareArrayArraySame EqOp KInt = Some kdds /\
    compareArrayScalar EqOp KInt = Some kds /\
    compareArrayScalarSame EqOp KInt = Some kdss /\
    (forall a b : list Z,
       length a = length b ->
       exists m s, kdd a b = Ret m /\ kdds a b = Ret s /\
         length s = length m /\
         forall i, (s !! i = Some one <-> m !! i = Some true) /\
                   (s !! i = Some zero <-> m !! i = Some false)) /\
    (forall (a : list Z) (c : Z),
       exists m s, kds a c = Ret m /\ kdss a c = Ret s /\
         length s = length m /\
         forall i, (s !! i = Some one <-> m !! i = Some true) /\
                   (s !! i = Some zero <-> m !! i = Some false)).
Proof.
  split; [reflexivity|].
  exact (proj1 C2_same_agrees_with_mask EqOp KInt eq_refl).
Defined.

(** C6, as stated, fails: [uintptr] is one of the two pointer kinds of the
    type catalog, and the generated file declares [gtDDBoolsUintptr], an
    ordering kernel at that kind. *)
Lemma C6_counterexample :
  ~ (forall op sh rk k,
       hasKernel op sh rk k = true ->
       (isOrdering op = true ->
        isComplexKind k || isBoolKind k || isPointerKind k = false) /\
       (rk = Same ->
        isBoolKind k || isStringKind k || isPointerKind k = false)).
Proof.
  intros H.
  destruct (H GtOp DD Bools KUintptr eq_refl) as [Hord _].
  specialize (Hord eq_refl). discriminate Hord.
Qed.

(** C6, amended.  The matrix is exactly this: a kernel exists unless it
    is an ordering kernel at a complex, boolean or [unsafe.Pointer] kind,
    or a same-type kernel at a boolean, string, [uintptr] or
    [unsafe.Pointer] kind.  So [uintptr] has the ordering kernels, as
    boolean masks only, and the file declares the variants of the matrix
    in order and nothing else. *)
Theorem C6_capability_restrictions :
  (forall op sh rk k,
     hasKernel op sh rk k
     = negb (isOrdering op &&
             (isComplexKind k || isBoolKind k || isOpaquePointerKind k))
       && negb (bool_decide (rk = Same) &&
                (isBoolKind k || isStringKind k || isPointerKind k)))
  /\ (forall v, v ∈ kernelMatrix <->
                hasKernel v.1.1.1 v.1.1.2 v.1.2 v.2 = true)
  /\ kernelName <$> kernelMatrix = generatedFunctions
  /\ hasKernel GtOp DD Bools KUintptr = true
  /\ hasKernel GtOp DD Same KUintptr = false.
Proof.
  split; [|split; [|split; [|split]]].
  - intros op sh rk k. destruct op, sh, rk, k; vm_compute; reflexivity.
  - intros [[[op sh] rk] k]. simpl. split.
    + unfold kernelMatrix. intros H.
      repeat (apply list_elem_of_bind in H as (? & H & _)).
      match type of H with
      | _ ∈ (if ?c then _ else _) => destruct c eqn:E
      end; [|by apply elem_of_nil in H].
      apply list_elem_of_singleton in H. by simplify_eq.
    + intros H. unfold kernelMatrix.
      apply list_elem_of_bind. exists op. split; [|destruct op; set_solver].
      apply list_elem_of_bind. exists k. split; [|destruct k; set_solver].
      apply list_elem_of_bind. exists sh. split; [|destruct sh; set_solver].
      apply list_elem_of_bind. exists rk. split; [|destruct rk; set_solver].
      rewrite H. set_solver.
  - vm_compute. reflexivity.
  - reflexivity.
  - reflexivity.
Qed.

(** C7, as stated, fails: a length mismatch with the longer [b] is not a
    fault, the kernel returns. *)
Lemma C7_counterexample :
  ~ (forall a b : list Z,
       length a <> length b -> returns (eqDDBoolsI a b) = false).
Proof.
  intros H. specialize (H [1%Z] [1%Z; 2%Z]).
  vm_compute in H. by specialize (H ltac:(lia)).
Qed.

(** C7, amended.  The array-array kernels check no length.  With
    [len(b) < len(a)] the read [b[len(b)]] is out of range and the call
    panics; with [len(a) <= len(b)], and so at equal lengths, every index
    is in range and the call returns. *)
Theorem C7_length_fault (op : Op) (k : Kind) :
  (forall kern, compareArrayArray op k = Some kern ->
     forall a b,
       (length b < length a ->
        kern a b = Panics (IndexOutOfRange (length b) (length b))) /\
       (length a <= length b -> returns (kern a b) = true)) /\
  (forall kern, compareArrayArraySame op k = Some kern ->
     forall a b,
       (length b < length a ->
        kern a b = Panics (IndexOutOfRange (length b) (length b))) /\
       (length a <= length b -> returns (kern a b) = true)).
Proof.
  split.
  - intros kern (f & _ & ->)%compareArrayArray_Some a b.
    rewrite kernDDBools_eq. split; intros H.
    + by rewrite decide_False by lia.
    + by rewrite decide_True by lia.
  - intros kern (f & one & zero & _ & _ & ->)%compareArrayArraySame_Some a b.
    rewrite kernDDSame_eq. split; intros H.
    + by rewrite decide_False by lia.
    + by rewrite decide_True by lia.
Qed.

Lemma C7_length_fault_witness :
  compareArrayArray EqOp KInt = Some eqDDBoolsI /\
  length [1%Z] < length [1%Z; 2%Z] /\
  eqDDBoolsI [1%Z; 2%Z] [1%Z] = Panics (IndexOutOfRange 1 1) /\
  length [1%Z; 2%Z] <= length [1%Z; 5%Z] /\
  returns (eqDDBoolsI [1%Z; 2%Z] [1%Z; 5%Z]) = true.
Proof.
  pose proof (proj1 (C7_length_fault EqOp KInt) eqDDBoolsI eq_refl) as H.
  split; [reflexivity|]. split; [simpl; lia|].
  split; [apply (H [1%Z; 2%Z] [1%Z]); simpl; lia|].
  split; [simpl; lia|].
  apply (H [1%Z; 2%Z] [1%Z; 5%Z]). simpl; lia.
Defined.

(** C10. A kernel that returns, returns as many elements as [a] has,
    none for the empty [a].  The array-scalar kernels always return.  The
    array-array kernels return whenever [len(a) <= len(b)], and then two
    [b] with the same first [len(a)] elements give the same result. *)
Theorem C10_result_length (op : Op) (k : Kind) :
  (forall kern, compareArrayArray op k = Some kern ->
     (forall a b r, kern a b = Ret r -> length r = length a) /\
     (forall b, kern [] b = Ret []) /\
     (forall a b, length a <= length b -> returns (kern a b) = true) /\
     (forall a b b', length a <= length b -> length a <= length b' ->
        take (length a) b = take (length a) b' -> kern a b = kern a b')) /\
  (forall kern, compareArrayArraySame op k = Some kern ->
     (forall a b r, kern a b = Ret r -> length r = length a) /\
     (forall b, kern [] b = Ret []) /\
     (forall a b, length a <= length b -> returns (kern a b) = true) /\
     (forall a b b', length a <= length b -> length a <= length b' ->
        take (length a) b = take (length a) b' -> kern a b = kern a b')) /\
  (forall kern, compareArrayScalar op k = Some kern ->
     forall a c, exists r, kern a c = Ret r /\ length r = length a) /\
  (forall kern, compareArrayScalarSame op k = Some kern ->
     forall a c, exists r, kern a c = Ret r /\ length r = length a).
Proof.
  split; [|split; [|split]].
  - intros kern (f & _ & ->)%compareArrayArray_Some.
    split; [|split; [|split]].
    + intros a b r. rewrite kernDDBools_eq.
      destruct (decide _); [|done]. intros [= <-]. by apply length_zip_with_l.
    + intros b. reflexivity.
    + intros a b H. by rewrite kernDDBools_eq, decide_True.
    + intros a b b' H H' E. rewrite !kernDDBools_eq, !decide_True by done.
      by rewrite <- (zip_with_take_r f a b), <- (zip_with_take_r f a b'), E.
  - intros kern (f & one & zero & _ & _ & ->)%compareArrayArraySame_Some.
    split; [|split; [|split]].
    + intros a b r. rewrite kernDDSame_eq.
      destruct (decide _); [|done]. intros [= <-]. by apply length_zip_with_l.
    + intros b. reflexivity.
    + intros a b H. by rewrite kernDDSame_eq, decide_True.
    + intros a b b' H H' E. rewrite !kernDDSame_eq, !decide_True by done.
      by rewrite <- (zip_with_take_r _ a b), <- (zip_with_take_r _ a b'), E.
  - intros kern (f & _ & ->)%compareArrayScalar_Some a c.
    rewrite kernDSBools_eq. eexists; split; [done|]. apply length_fmap.
  - intros kern (f & one & zero & _ & _ & ->)%compareArrayScalarSame_Some a c.
    rewrite kernDSSame_eq. eexists; split; [done|]. apply length_fmap.
Qed.

Lemma C10_result_length_witness :
  compareArrayArray EqOp KInt = Some eqDDBoolsI /\
  length [1%Z; 2%Z] <= length [1%Z; 5%Z; 7%Z] /\
  returns (eqDDBoolsI [1%Z; 2%Z] [1%Z; 5%Z; 7%Z]) = true /\
  eqDDBoolsI [1%Z; 2%Z] [1%Z; 5%Z; 7%Z] = eqDDBoolsI [1%Z; 2%Z] [1%Z; 5%Z].
Proof.
  pose proof (proj1 (C10_result_length EqOp KInt) eqDDBoolsI eq_refl)
    as (_ & _ & Hret & Hdep).
  split; [reflexivity|]. split; [simpl; lia|]. split.
  - apply Hret. simpl; lia.
  - apply Hdep; [simpl; lia | simpl; lia | reflexivity].
Defined.

(** The array-scalar kernel is the array-array kernel on the scalar
    repeated. *)
Lemma scalar_is_broadcast {A} (f : A -> A -> bool) (a : list A) (c : A) :
  Tensor.kernDSBools f a c = Tensor.kernDDBools f a (replicate (length a) c).
Proof.
  rewrite kernDSBools_eq, kernDDBools_eq, length_replicate.
  rewrite decide_True by lia. by rewrite zip_with_replicate_r_eq.
Qed.

Example gtDSSameF64_example :
  compareArrayScalarSame GtOp KFloat64 = Some gtDSSameF64 /\
  gtDSSameF64 [1.0; 2.0; 3.0]%float 2.0%float = Ret [0; 0; 1]%float.
Proof. split; reflexivity. Qed.

(** On a NaN every comparison is false: [>=] is not the negation of
    [<]. *)
Example nan_compares_false :
  Tensor.kernDSBools (floatCmp GteOp) [nan] 1%float = Ret [false] /\
  Tensor.kernDSBools (floatCmp LtOp) [nan] 1%float = Ret [false] /\
  Tensor.kernDDBools (floatCmp EqOp) [nan] [nan] = Ret [false].
Proof. repeat split; reflexivity. Qed.

Import Heap HeapFacts.

(** C9. On any store, with any two slices of it as arguments, also
    overlapping ones or the same slice twice, a kernel of each of the four
    shapes leaves every array of the store unchanged, so both arguments
    show the elements they showed; the slice it returns lies in an array
    the store did not have, hence shares no array with an argument; and
    the returned elements, or the panic, are those of the kernel on
    lists. *)
Theorem C9_kernels_are_pure {V : Type} (h : store V) (a b : slice)
    (la lb : list V) :
  contents h a = Some la -> contents h b = Some lb ->
  (forall (f : V -> V -> V) zero,
     pureCall h [a; b] (Heap.kernDDBools f zero a b h)
       (if decide (length la <= length lb) then Ret (zip_with f la lb)
        else Panics (IndexOutOfRange (length lb) (length lb)))) /\
  (forall (op : V -> V -> bool) one zero,
     pureCall h [a; b] (Heap.kernDDSame op one zero a b h)
       (Tensor.kernDDSame op one zero la lb)) /\
  (forall (f : V -> V -> V) zero c,
     pureCall h [a] (Heap.kernDSBools f zero a c h)
       (Ret ((fun v => f v c) <$> la))) /\
  (forall (op : V -> V -> bool) one zero c,
     pureCall h [a] (Heap.kernDSSame op one zero a c h)
       (Tensor.kernDSSame op one zero la c)).
Proof.
  intros Ha Hb. split; [|split; [|split]].
  - intros f zero. by apply kernDDBools_pure.
  - intros op one zero. by apply kernDDSame_pure.
  - intros f zero c. by apply kernDSBools_pure.
  - intros op one zero c. by apply kernDSSame_pure.
Qed.

Lemma C9_kernels_are_pure_witness :
  contents sharedStore (Slice 7 0 3) = Some [1; 2; 3]%Z /\
  contents sharedStore (Slice 7 3 3) = Some [1; 5; 3]%Z /\
  pureCall sharedStore [Slice 7 0 3; Slice 7 3 3]
    (Heap.eqDDSameI (Slice 7 0 3) (Slice 7 3 3) sharedStore)
    (Tensor.eqDDSameI [1; 2; 3]%Z [1; 5; 3]%Z).
Proof.
  split; [reflexivity|]. split; [reflexivity|].
  exact (proj1 (proj2 (C9_kernels_are_pure sharedStore (Slice 7 0 3) (Slice 7 3 3)
                         [1; 2; 3]%Z [1; 5; 3]%Z eq_refl eq_refl))
           Z.eqb 1%Z 0%Z).
Defined.

Example eqDDSameI_on_sharedStore :
  (Heap.eqDDSameI (Slice 7 0 3) (Slice 7 3 3) sharedStore).1
  = Ret (Slice (fresh (dom sharedStore)) 0 3) /\
  contents (Heap.eqDDSameI (Slice 7 0 3) (Slice 7 3 3) sharedStore).2
           (Slice (fresh (dom sharedStore)) 0 3) = Some [1; 0; 1]%Z.
Proof. split; vm_compute; reflexivity. Qed.

(** * The generator: the claims *)

Import Genapi GenapiFacts.

(** C3, as stated, fails: the scan does not stop at the first matching
    group, it appends the members of every matching group. *)
Lemma C3_counterexample :
  ~ (forall decls accept max,
       forallb wfDecl decls = true ->
       constTypes decls accept max = Ret (firstGroupNames decls accept max)).
Proof.
  intros H.
  specialize (H twoGroups (str "Kind") (str "maxMarker") eq_refl).
  vm_compute in H. discriminate H.
Qed.

(** C3, amended.  On a parsed file, [constTypes] returns, never panics,
    and gives the first name of each member of every [const] group whose
    first member is declared with the type [accept], group after group
    in file order, without the sentinel wherever it stands.  With at most
    one such group that is the first matching group; with none, and so
    for a group without members, it is the empty list. *)
Theorem C3_catalog_extraction (decls : list Decl) (accept max : gostring) :
  forallb wfDecl decls = true ->
  constTypes decls accept max = Ret (allGroupNames decls accept max) /\
  (length (filter (fun d => matchesGroup accept d = true) decls) <= 1 ->
   constTypes decls accept max = Ret (firstGroupNames decls accept max)) /\
  (filter (fun d => matchesGroup accept d = true) decls = [] ->
   constTypes decls accept max = Ret []).
Proof.
  intros Hwf. unfold constTypes.
  rewrite constTypesFrom_spec by done. simpl.
  split; [done|]. split.
  - intros Hlen. by rewrite allGroupNames_first.
  - intros Hnone. unfold allGroupNames. by rewrite Hnone.
Qed.

Lemma C3_catalog_extraction_witness :
  forallb wfDecl sampleCatalog = true /\
  constTypes sampleCatalog (str "Kind") (str "maxMarker")
  = Ret [str "Add"; str "Sub"].
Proof.
  split; [reflexivity|].
  exact (eq_trans
           (proj1 (C3_catalog_extraction sampleCatalog (str "Kind")
                     (str "maxMarker") eq_refl))
           eq_refl).
Defined.

Example sentinel_in_the_middle :
  constTypes
    [GenDecl CONST [ValueSpec [str "maxMarker"] (Some (Ident (str "Kind")));
                    ValueSpec [str "Add"] None;
                    ValueSpec [str "maxMarker"] None;
                    ValueSpec [str "Sub"] None];
     GenDecl CONST []]
    (str "Kind") (str "maxMarker")
  = Ret [str "Add"; str "Sub"].
Proof. reflexivity. Qed.

(** C4, as stated, fails: the override is looked up after the name is
    capitalised, so the stripped form [ln], which is not [Ln], becomes
    [Log] and not [Ln]. *)
Lemma C4_counterexample :
  ~ (forall U v,
       isIdentifier U v = true ->
       unaryApiName U v
       = if bool_decide (TrimSuffix v opTypeSuffix = str "Ln") then str "Log"
         else Capitalize U (TrimSuffix v opTypeSuffix)).
Proof.
  intros H. specialize (H asciiTables (str "lnOpType") eq_refl).
  vm_compute in H. discriminate H.
Qed.

(** C4, amended.  For an identifier [v], let [c] be the capitalised form
    of [v] without one trailing [OpType].  The unary name is [Log] when
    [c] is [Ln], else [c]; the binary name is [HadamardProd] when [c] is
    [Mul], [HadamardDiv] when [c] is [Div], else [c].  Both are total
    functions of [v]. *)
Theorem C4_name_normalizer (U : UnicodeTables) (v : gostring) :
  isIdentifier U v = true ->
  let c := Capitalize U (TrimSuffix v opTypeSuffix) in
  unaryApiName U v = (if bool_decide (c = str "Ln") then str "Log" else c) /\
  binaryApiName U v
  = (if bool_decide (c = str "Mul") then str "HadamardProd"
     else if bool_decide (c = str "Div") then str "HadamardDiv"
     else c).
Proof.
  intros Hid c. unfold unaryApiName, binaryApiName.
  rewrite Title_Capitalize
    by (by apply TrimSuffix_identRunes, isIdentifier_identRunes).
  done.
Qed.

Lemma C4_name_normalizer_witness :
  isIdentifier asciiTables (str "lnOpType") = true /\
  unaryApiName asciiTables (str "lnOpType") = str "Log" /\
  binaryApiName asciiTables (str "lnOpType") = str "Ln".
Proof.
  split; [reflexivity|].
  pose proof (C4_name_normalizer asciiTables (str "lnOpType") eq_refl) as [Hu Hb].
  split; [exact (eq_trans Hu eq_refl) | exact (eq_trans Hb eq_refl)].
Defined.

Example overrides :
  unaryApiName asciiTables (str "LnOpType") = str "Log" /\
  unaryApiName asciiTables (str "absOpType") = str "Abs" /\
  binaryApiName asciiTables (str "mulOpType") = str "HadamardProd" /\
  binaryApiName asciiTables (str "divOpType") = str "HadamardDiv" /\
  binaryApiName asciiTables (str "gteOpType") = str "Gte".
Proof. repeat split; reflexivity. Qed.

(** C5. The flag [AsSame] of a binary operator is set exactly when its
    public name is one of [Lt], [Gt], [Lte], [Gte], [Eq], [Ne].  The text
    of the operator is a function of its two names and the flag: with the
    flag the function takes [retSame] and sets [op.retSame] before it
    calls [binOpNode]; without it the function calls [binOpNode] on the
    new operation, with no third parameter. *)
Theorem C5_result_flag (U : UnicodeTables) (v outFile : gostring) :
  (binaryAsSame (binaryApiName U v) = true
   <-> binaryApiName U v ∈ [str "Lt"; str "Gt"; str "Lte"; str "Gte";
                             str "Eq"; str "Ne"]) /\
  Execute U (binaryTemplate init) outFile (binaryData U v)
  = (outFile
     ++ binaryText U (binaryApiName U v) v (binaryAsSame (binaryApiName U v)),
     None) /\
  (forall fnName opType out asSame,
     Execute U (binaryTemplate init) out
       [("FnName", VString fnName); ("OpType", VString opType);
        ("AsSame", VBool asSame)]
     = (out ++ binaryText U fnName opType asSame, None)) /\
  (forall fnName opType,
     binaryText U fnName opType true
     = str "// " ++ fnName ++ str " perfors a pointwise " ++ ToLower U fnName
       ++ str " operation." ++ nl
       ++ retSameComment
       ++ str "func " ++ fnName ++ str "(a, b *Node" ++ str ", retSame bool"
       ++ str ") (*Node, error) { "
       ++ (str "op := newElemBinOp(" ++ opType ++ str ", a, b)" ++ nl
           ++ tab ++ str "op.retSame = retSame" ++ nl
           ++ tab ++ str "return binOpNode(op, a, b)" ++ nl)
       ++ str "}" ++ nl ++ nl ++ factoryText fnName opType) /\
  (forall fnName opType,
     binaryText U fnName opType false
     = str "// " ++ fnName ++ str " perfors a pointwise " ++ ToLower U fnName
       ++ str " operation." ++ nl
       ++ str "func " ++ fnName ++ str "(a, b *Node"
       ++ str ") (*Node, error) { "
       ++ (str "return binOpNode(newElemBinOp(" ++ opType
           ++ str ", a, b), a, b) ")
       ++ str "}" ++ nl ++ nl ++ factoryText fnName opType).
Proof.
  split; [|split; [|split; [|split]]].
  - unfold binaryAsSame. apply bool_decide_eq_true.
  - apply Execute_binary.
  - intros. apply Execute_binary.
  - reflexivity.
  - reflexivity.
Qed.

(** C8, as stated, fails: what [Execute] returns is dropped, so a field
    the data does not have ends one rendering and the run goes on. *)
Lemma C8_counterexample :
  ~ (forall U g decls names v outFile,
       constTypes decls unaryAccept unaryMax = Ret names ->
       v ∈ names ->
       (Execute U (unaryTemplate g) outFile (unaryData U v)).2 <> None ->
       generateUnary U g (Parsed decls) outFile = Fatal).
Proof.
  intros H.
  specialize (H asciiTables brokenTemplates unaryCatalog
                [str "absOpType"; str "signOpType"] (str "absOpType") []
                eq_refl).
  assert (generateUnary asciiTables brokenTemplates (Parsed unaryCatalog) []
          = Done (str "func func ")) as E by reflexivity.
  rewrite H in E; [discriminate E|set_solver|].
  vm_compute. discriminate.
Qed.

(** C8, amended.  With the two templates of the generator, rendering a
    descriptor never fails and writes a text fixed by the descriptor's
    fields; a run over a parsed file writes these texts in catalog
    order; a file that does not parse, or an output file that does not
    open, is fatal. *)
Theorem C8_rendering (U : UnicodeTables) (decls : list Decl)
    (outFile : gostring) :
  forallb wfDecl decls = true ->
  (forall fnName opType out,
     Execute U (unaryTemplate init) out
       [("FnName", VString fnName); ("OpType", VString opType)]
     = (out ++ unaryText U fnName opType, None)) /\
  (forall fnName opType asSame out,
     Execute U (binaryTemplate init) out
       [("FnName", VString fnName); ("OpType", VString opType);
        ("AsSame", VBool asSame)]
     = (out ++ binaryText U fnName opType asSame, None)) /\
  generateUnary U init (Parsed decls) outFile
  = Done (outFile
          ++ mjoin ((fun v => unaryText U (unaryApiName U v) v)
                    <$> allGroupNames decls unaryAccept unaryMax)) /\
  generateBinary U init (Parsed decls) outFile
  = Done (outFile
          ++ mjoin ((fun v => binaryText U (binaryApiName U v) v
                                (binaryAsSame (binaryApiName U v)))
                    <$> allGroupNames decls binaryAccept binaryMax)) /\
  (forall g, generateUnary U g ParseError outFile = Fatal) /\
  (forall g, generateBinary U g ParseError outFile = Fatal) /\
  (forall g binaryFile, main U g true ParseError binaryFile = Fatal) /\
  main U init true (Parsed decls) ParseError = Fatal /\
  (forall g unaryFile binaryFile, main U g false unaryFile binaryFile = Fatal).
Proof.
  intros Hwf.
  split; [intros; apply Execute_unary|].
  split; [intros; apply Execute_binary|].
  split; [|split; [|repeat split]].
  3:{ unfold main, generateUnary, constTypes.
      by rewrite constTypesFrom_spec by done. }
  - unfold generateUnary, constTypes. rewrite constTypesFrom_spec by done.
    simpl. f_equal.
    apply (renderAll_texts U _ _ (fun v => unaryText U (unaryApiName U v) v)).
    intros v out. apply Execute_unary.
  - unfold generateBinary, constTypes. rewrite constTypesFrom_spec by done.
    simpl. f_equal.
    apply (renderAll_texts U _ _
             (fun v => binaryText U (binaryApiName U v) v
                         (binaryAsSame (binaryApiName U v)))).
    intros v out. apply Execute_binary.
Qed.

Lemma C8_rendering_witness :
  forallb wfDecl unaryCatalog = true /\
  generateUnary asciiTables init (Parsed unaryCatalog) []
  = Done (unaryText asciiTables (str "Abs") (str "absOpType")
          ++ unaryText asciiTables (str "Sign") (str "signOpType")).
Proof.
  split; [reflexivity|].
  exact (eq_trans
           (proj1 (proj2 (proj2 (C8_rendering asciiTables unaryCatalog []
                                   eq_refl))))
           eq_refl).
Defined.

(** * Further properties of the kernels *)

Section Pointwise.
Import Tensor.

Lemma SFcompare_swap (f1 f2 : SpecFloat.spec_float) :
  SpecFloat.SFcompare f2 f1 = option_map CompOpp (SpecFloat.SFcompare f1 f2).
Proof.
  destruct f1 as [s1|s1| |s1 m1 e1], f2 as [s2|s2| |s2 m2 e2]; simpl;
    try reflexivity; try (by destruct s1); try (by destruct s2);
    try (by destruct s1, s2).
  pose proof (Pos.compare_cont_antisym m1 m2 Eq) as E. simpl in E.
  destruct s1, s2; simpl; try reflexivity;
    rewrite (Z.compare_antisym e1 e2); destruct (e1 ?= e2)%Z; simpl;
    try reflexivity; rewrite <- E;
    by destruct (Pos.compare_cont Eq m1 m2).
Qed.

Lemma float_leb_split (x y : float) :
  PrimFloat.leb x y = PrimFloat.ltb x y || PrimFloat.eqb x y.
Proof.
  rewrite FloatAxioms.leb_spec, FloatAxioms.ltb_spec, FloatAxioms.eqb_spec.
  unfold SpecFloat.SFleb, SpecFloat.SFltb, SpecFloat.SFeqb.
  by destruct (SpecFloat.SFcompare _ _) as [[]|].
Qed.

Lemma float_eqb_sym (x y : float) : PrimFloat.eqb x y = PrimFloat.eqb y x.
Proof.
  rewrite !FloatAxioms.eqb_spec. unfold SpecFloat.SFeqb.
  rewrite (SFcompare_swap (FloatOps.Prim2SF x) (FloatOps.Prim2SF y)).
  by destruct (SpecFloat.SFcompare _ _) as [[]|].
Qed.

Lemma string_leb_split (x y : string) :
  String.leb x y = String.ltb x y || String.eqb x y.
Proof.
  unfold String.leb, String.ltb.
  destruct (String.compare x y) eqn:E; simpl.
  - apply String.compare_eq_iff in E as ->. by rewrite String.eqb_refl.
  - done.
  - symmetry. apply String.eqb_neq. intros ->.
    pose proof (String.compare_antisym y y) as E'. rewrite E in E'.
    discriminate E'.
Qed.

Lemma string_ltb_negb_leb (x y : string) :
  String.ltb x y = negb (String.leb y x).
Proof.
  unfold String.leb, String.ltb. rewrite (String.compare_antisym x y).
  by destruct (String.compare y x).
Qed.

(** [<=] is [<] or [==], and [>=] is [>] or [==], at every ordered kind,
    the IEEE kinds with their NaN included. *)
Lemma goCmp_split (k : Kind) flt feq fle fgt fge :
  goCmp LtOp k = Some flt -> goCmp EqOp k = Some feq ->
  goCmp LteOp k = Some fle -> goCmp GtOp k = Some fgt ->
  goCmp GteOp k = Some fge ->
  forall x y, fle x y = flt x y || feq x y /\ fge x y = fgt x y || feq x y.
Proof.
  destruct k; simpl; intros; simplify_eq; simpl;
    try (split;
         [ destruct (Z.leb_spec x y), (Z.ltb_spec x y), (Z.eqb_spec x y)
         | rewrite Z.geb_leb, Z.gtb_ltb;
           destruct (Z.leb_spec y x), (Z.ltb_spec y x), (Z.eqb_spec x y) ];
         simpl; try done; lia).
  - split; [apply float_leb_split|].
    by rewrite float_leb_split, (float_eqb_sym x y).
  - split; [apply float_leb_split|].
    by rewrite float_leb_split, (float_eqb_sym x y).
  - split; [apply string_leb_split|].
    by rewrite string_leb_split, (String.eqb_sym x y).
Qed.

(** [==] is symmetric, [a > b] is [b < a] and [a >= b] is [b <= a]. *)
Lemma goCmp_eq_sym (k : Kind) feq :
  goCmp EqOp k = Some feq -> forall x y, feq x y = feq y x.
Proof.
  destruct k; simpl; intros; simplify_eq; simpl;
    first [ by destruct x, y | apply Z.eqb_sym | apply float_eqb_sym
          | apply String.eqb_sym | idtac ].
  - unfold complexEq. by rewrite (float_eqb_sym x.1), (float_eqb_sym x.2).
  - unfold complexEq. by rewrite (float_eqb_sym x.1), (float_eqb_sym x.2).
Qed.

Lemma goCmp_gt_lt (k : Kind) fgt flt :
  goCmp GtOp k = Some fgt -> goCmp LtOp k = Some flt ->
  forall x y, fgt x y = flt y x.
Proof.
  destruct k; simpl; intros; simplify_eq; simpl;
    first [ apply Z.gtb_ltb | done ].
Qed.

Lemma goCmp_gte_lte (k : Kind) fge fle :
  goCmp GteOp k = Some fge -> goCmp LteOp k = Some fle ->
  forall x y, fge x y = fle y x.
Proof.
  destruct k; simpl; intros; simplify_eq; simpl;
    first [ apply Z.geb_leb | done ].
Qed.

(** Where no NaN exists the order is total: [<] is the negation of [>=]
    and [>] that of [<=]. *)
Lemma goCmp_complement (k : Kind) flt fle fgt fge :
  isFloatKind k = false ->
  goCmp LtOp k = Some flt -> goCmp LteOp k = Some fle ->
  goCmp GtOp k = Some fgt -> goCmp GteOp k = Some fge ->
  forall x y, flt x y = negb (fge x y) /\ fgt x y = negb (fle x y).
Proof.
  destruct k; simpl; intros; simplify_eq; simpl;
    try (rewrite Z.geb_leb, Z.gtb_ltb;
         destruct (Z.leb_spec y x), (Z.ltb_spec x y),
                  (Z.leb_spec x y), (Z.ltb_spec y x);
         simpl; split; try done; lia).
  split; [apply string_ltb_negb_leb|]. by rewrite string_ltb_negb_leb.
Qed.

(** [==] is reflexive where no NaN exists. *)
Lemma goCmp_eq_refl (k : Kind) feq :
  isFloatKind k = false -> goCmp EqOp k = Some feq -> forall x, feq x x = true.
Proof.
  destruct k; simpl; intros; simplify_eq; simpl;
    first [ by destruct x | apply Z.eqb_refl | apply String.eqb_refl ].
Qed.
End Pointwise.

Lemma zip_with_pointwise {A B C} (f g : A -> B -> C) (a : list A) (b : list B) :
  (forall x y, f x y = g x y) -> zip_with f a b = zip_with g a b.
Proof.
  intros E. revert b. induction a as [|x a IH]; intros [|y b]; simpl; try done.
  by rewrite E, IH.
Qed.

Lemma zip_with_orb {A B} (f g : A -> B -> bool) (a : list A) (b : list B) :
  zip_with orb (zip_with f a b) (zip_with g a b)
  = zip_with (fun x y => f x y || g x y) a b.
Proof.
  revert b. induction a as [|x a IH]; intros [|y b]; simpl; try done.
  by rewrite IH.
Qed.

Lemma zip_with_negb {A B} (f : A -> B -> bool) (a : list A) (b : list B) :
  negb <$> zip_with f a b = zip_with (fun x y => negb (f x y)) a b.
Proof.
  revert b. induction a as [|x a IH]; intros [|y b]; simpl; try done.
  by rewrite <- IH.
Qed.

Lemma fmap_constant {A C} (f : A -> C) (c : C) (a : list A) :
  (forall x, f x = c) -> f <$> a = replicate (length a) c.
Proof.
  intros E. induction a as [|x a IH]; [done|].
  rewrite fmap_cons, E, IH. done.
Qed.

Lemma zip_with_diag {A C} (f : A -> A -> C) (a : list A) :
  zip_with f a a = (fun x => f x x) <$> a.
Proof. induction a as [|x a IH]; simpl; [done|]. by rewrite IH. Qed.

(** X1. An array-scalar kernel is the array-array kernel of the same
    operator on the scalar repeated [len(a)] times, for the mask and for
    the same-type form. *)
Theorem X1_scalar_is_broadcast {A : Type} (f : A -> A -> bool) (one zero : A)
    (a : list A) (c : A) :
  Tensor.kernDSBools f a c
  = Tensor.kernDDBools f a (replicate (length a) c) /\
  Tensor.kernDSSame f one zero a c
  = Tensor.kernDDSame f one zero a (replicate (length a) c).
Proof.
  rewrite kernDSBools_eq, kernDDBools_eq, kernDSSame_eq, kernDDSame_eq.
  rewrite length_replicate, !decide_True by lia.
  by rewrite !zip_with_replicate_r_eq.
Qed.

(** X2. A kernel can be run in chunks.  When [a1] and [b1] have one
    length, the kernel on [a1 ++ a2] and [b1 ++ b2] returns the result on
    [a1], [b1] followed by the result on [a2], [b2]; when the second
    chunk panics the whole call panics, at the index moved by [len(a1)].
    An array-scalar kernel on [a1 ++ a2] returns the two results in a
    row. *)
Theorem X2_kernels_split {A : Type} (f : A -> A -> bool) (one zero : A)
    (a1 a2 b1 b2 : list A) (c : A) :
  length a1 = length b1 ->
  Tensor.kernDDBools f (a1 ++ a2) (b1 ++ b2)
  = (r1 ← Tensor.kernDDBools f a1 b1;
     match Tensor.kernDDBools f a2 b2 with
     | Ret r2 => Ret (r1 ++ r2)
     | Panics e => Panics (shiftFault (length a1) e)
     end) /\
  Tensor.kernDDSame f one zero (a1 ++ a2) (b1 ++ b2)
  = (r1 ← Tensor.kernDDSame f one zero a1 b1;
     match Tensor.kernDDSame f one zero a2 b2 with
     | Ret r2 => Ret (r1 ++ r2)
     | Panics e => Panics (shiftFault (length a1) e)
     end) /\
  Tensor.kernDSBools f (a1 ++ a2) c
  = (r1 ← Tensor.kernDSBools f a1 c; r2 ← Tensor.kernDSBools f a2 c;
     Ret (r1 ++ r2)) /\
  Tensor.kernDSSame f one zero (a1 ++ a2) c
  = (r1 ← Tensor.kernDSSame f one zero a1 c;
     r2 ← Tensor.kernDSSame f one zero a2 c; Ret (r1 ++ r2)).
Proof.
  intros Hlen.
  rewrite !kernDDBools_eq, !kernDDSame_eq, !kernDSBools_eq, !kernDSSame_eq.
  rewrite !length_app, !(decide_True (P := length a1 <= length b1)) by lia.
  simpl. rewrite !fmap_app.
  split; [|split; [|done]].
  - destruct (decide (length a2 <= length b2)).
    + rewrite decide_True by lia. by rewrite zip_with_app.
    + rewrite decide_False by lia. simpl. by rewrite Hlen.
  - destruct (decide (length a2 <= length b2)).
    + rewrite decide_True by lia. by rewrite zip_with_app.
    + rewrite decide_False by lia. simpl. by rewrite Hlen.
Qed.

Lemma X2_kernels_split_witness :
  length [1%Z; 2%Z] = length [1%Z; 5%Z] /\
  Tensor.eqDDBoolsI ([1%Z; 2%Z] ++ [3%Z]) ([1%Z; 5%Z] ++ [3%Z; 9%Z])
  = Ret ([true; false] ++ [true]) /\
  Tensor.eqDDBoolsI ([1%Z; 2%Z] ++ [3%Z; 4%Z]) ([1%Z; 5%Z] ++ [3%Z])
  = Panics (IndexOutOfRange 3 3).
Proof.
  split; [reflexivity|]. split.
  - exact (proj1 (X2_kernels_split Z.eqb 1%Z 0%Z [1%Z; 2%Z] [3%Z]
                    [1%Z; 5%Z] [3%Z; 9%Z] 0%Z eq_refl)).
  - exact (proj1 (X2_kernels_split Z.eqb 1%Z 0%Z [1%Z; 2%Z] [3%Z; 4%Z]
                    [1%Z; 5%Z] [3%Z] 0%Z eq_refl)).
Defined.

(** X3. At every ordered kind, the IEEE kinds with their NaN included,
    the [Lte] mask is the [Lt] mask or-ed slot by slot with the [Eq]
    mask, and the [Gte] mask is the [Gt] mask or-ed with the [Eq]
    mask. *)
Theorem X3_lte_is_lt_or_eq (k : Tensor.Kind) klt keq klte kgt kgte
    (a b : list (Tensor.elem k)) :
  Tensor.compareArrayArray Tensor.LtOp k = Some klt ->
  Tensor.compareArrayArray Tensor.EqOp k = Some keq ->
  Tensor.compareArrayArray Tensor.LteOp k = Some klte ->
  Tensor.compareArrayArray Tensor.GtOp k = Some kgt ->
  Tensor.compareArrayArray Tensor.GteOp k = Some kgte ->
  length a <= length b ->
  exists lt eq gt,
    klt a b = Ret lt /\ keq a b = Ret eq /\ kgt a b = Ret gt /\
    klte a b = Ret (zip_with orb lt eq) /\
    kgte a b = Ret (zip_with orb gt eq).
Proof.
  intros (flt & Hlt & ->)%compareArrayArray_Some
         (feq & Heq & ->)%compareArrayArray_Some
         (fle & Hle & ->)%compareArrayArray_Some
         (fgt & Hgt & ->)%compareArrayArray_Some
         (fge & Hge & ->)%compareArrayArray_Some Hlen.
  pose proof (goCmp_split k flt feq fle fgt fge Hlt Heq Hle Hgt Hge) as Hs.
  exists (zip_with flt a b), (zip_with feq a b), (zip_with fgt a b).
  rewrite !kernDDBools_eq, !decide_True by done.
  repeat (split; [done|]). rewrite !zip_with_orb.
  split; f_equal; apply zip_with_pointwise; intros x y; apply Hs.
Qed.

Lemma X3_lte_is_lt_or_eq_witness :
  length [1%float; nan; 2%float] <= length [2%float; nan; 2%float] /\
  exists lt eq gt,
    Tensor.kernDDBools (Tensor.floatCmp Tensor.LtOp)
      [1%float; nan; 2%float] [2%float; nan; 2%float] = Ret lt /\
    Tensor.kernDDBools (Tensor.floatCmp Tensor.EqOp)
      [1%float; nan; 2%float] [2%float; nan; 2%float] = Ret eq /\
    Tensor.kernDDBools (Tensor.floatCmp Tensor.GtOp)
      [1%float; nan; 2%float] [2%float; nan; 2%float] = Ret gt /\
    Tensor.kernDDBools (Tensor.floatCmp Tensor.LteOp)
      [1%float; nan; 2%float] [2%float; nan; 2%float]
    = Ret (zip_with orb lt eq) /\
    Tensor.kernDDBools (Tensor.floatCmp Tensor.GteOp)
      [1%float; nan; 2%float] [2%float; nan; 2%float]
    = Ret (zip_with orb gt eq).
Proof.
  split; [simpl; lia|].
  apply (X3_lte_is_lt_or_eq Tensor.KFloat64 _ _ _ _ _
           [1%float; nan; 2%float] [2%float; nan; 2%float]
           eq_refl eq_refl eq_refl eq_refl eq_refl).
  simpl; lia.
Defined.

(** X4. At the ordered kinds without NaN, the integers and the strings,
    the order is total: the [Lt] mask is the negation of the [Gte] mask
    and the [Gt] mask the negation of the [Lte] mask. *)
Theorem X4_lt_is_not_gte (k : Tensor.Kind) klt klte kgt kgte
    (a b : list (Tensor.elem k)) :
  isFloatKind k = false ->
  Tensor.compareArrayArray Tensor.LtOp k = Some klt ->
  Tensor.compareArrayArray Tensor.LteOp k = Some klte ->
  Tensor.compareArrayArray Tensor.GtOp k = Some kgt ->
  Tensor.compareArrayArray Tensor.GteOp k = Some kgte ->
  length a <= length b ->
  exists le ge,
    klte a b = Ret le /\ kgte a b = Ret ge /\
    klt a b = Ret (negb <$> ge) /\ kgt a b = Ret (negb <$> le).
Proof.
  intros Hk (flt & Hlt & ->)%compareArrayArray_Some
            (fle & Hle & ->)%compareArrayArray_Some
            (fgt & Hgt & ->)%compareArrayArray_Some
            (fge & Hge & ->)%compareArrayArray_Some Hlen.
  pose proof (goCmp_complement k flt fle fgt fge Hk Hlt Hle Hgt Hge) as Hc.
  exists (zip_with fle a b), (zip_with fge a b).
  rewrite !kernDDBools_eq, !decide_True by done.
  repeat (split; [done|]). rewrite !zip_with_negb.
  split; f_equal; apply zip_with_pointwise; intros x y; apply Hc.
Qed.

Lemma X4_lt_is_not_gte_witness :
  isFloatKind Tensor.KString = false /\
  length ["ab"; "b"]%string <= length ["b"; "b"]%string /\
  exists le ge,
    Tensor.kernDDBools (Tensor.stringCmp Tensor.LteOp)
      ["ab"; "b"]%string ["b"; "b"]%string = Ret le /\
    Tensor.kernDDBools (Tensor.stringCmp Tensor.GteOp)
      ["ab"; "b"]%string ["b"; "b"]%string = Ret ge /\
    Tensor.kernDDBools (Tensor.stringCmp Tensor.LtOp)
      ["ab"; "b"]%string ["b"; "b"]%string = Ret (negb <$> ge) /\
    Tensor.kernDDBools (Tensor.stringCmp Tensor.GtOp)
      ["ab"; "b"]%string ["b"; "b"]%string = Ret (negb <$> le).
Proof.
  split; [reflexivity|]. split; [simpl; lia|].
  apply (X4_lt_is_not_gte Tensor.KString _ _ _ _
           ["ab"; "b"]%string ["b"; "b"]%string
           eq_refl eq_refl eq_refl eq_refl eq_refl).
  simpl; lia.
Defined.

(** X5. At the kinds without NaN, a slice compared with itself under
    [Eq] gives [true] in every slot, and [1] in every slot of the
    same-type form.  At the IEEE kinds this fails: a NaN is not equal to
    itself. *)
Theorem X5_eq_with_itself (k : Tensor.Kind) (a : list (Tensor.elem k)) :
  isFloatKind k = false ->
  (forall keq, Tensor.compareArrayArray Tensor.EqOp k = Some keq ->
     keq a a = Ret (replicate (length a) true)) /\
  (forall ksame one zero,
     Tensor.compareArrayArraySame Tensor.EqOp k = Some ksame ->
     Tensor.goConst10 k = Some (one, zero) ->
     ksame a a = Ret (replicate (length a) one)) /\
  Tensor.kernDDBools (Tensor.floatCmp Tensor.EqOp) [nan] [nan] = Ret [false].
Proof.
  intros Hk. split; [|split; [|reflexivity]].
  - intros keq (feq & Heq & ->)%compareArrayArray_Some.
    rewrite kernDDBools_eq, decide_True by done. f_equal.
    rewrite zip_with_diag. apply fmap_constant.
    apply (goCmp_eq_refl k feq Hk Heq).
  - intros ksame one zero
      (feq & one' & zero' & Heq & Hc & ->)%compareArrayArraySame_Some Hc'.
    rewrite Hc in Hc'. injection Hc' as -> ->.
    rewrite kernDDSame_eq, decide_True by done. f_equal.
    rewrite zip_with_diag. apply fmap_constant.
    intros x. unfold Tensor.indicator.
    by rewrite (goCmp_eq_refl k feq Hk Heq).
Qed.

Lemma X5_eq_with_itself_witness :
  isFloatKind Tensor.KInt = false /\
  Tensor.eqDDBoolsI [3%Z; 3%Z; 7%Z] [3%Z; 3%Z; 7%Z] = Ret [true; true; true] /\
  Tensor.eqDDSameI [3%Z; 3%Z; 7%Z] [3%Z; 3%Z; 7%Z] = Ret [1%Z; 1%Z; 1%Z].
Proof.
  split; [reflexivity|].
  pose proof (X5_eq_with_itself Tensor.KInt [3%Z; 3%Z; 7%Z] eq_refl)
    as (Hm & Hs & _).
  split.
  - exact (Hm Tensor.eqDDBoolsI eq_refl).
  - exact (Hs Tensor.eqDDSameI 1%Z 0%Z eq_refl eq_refl).
Defined.

(** X6. With the arguments exchanged, at equal lengths: [Eq] gives the
    same mask at every kind, [Gt] gives the mask of [Lt] and [Gte] that
    of [Lte]. *)
Theorem X6_exchanged_arguments (k : Tensor.Kind) (a b : list (Tensor.elem k)) :
  length a = length b ->
  (forall keq, Tensor.compareArrayArray Tensor.EqOp k = Some keq ->
     keq a b = keq b a) /\
  (forall kgt klt,
     Tensor.compareArrayArray Tensor.GtOp k = Some kgt ->
     Tensor.compareArrayArray Tensor.LtOp k = Some klt ->
     kgt a b = klt b a) /\
  (forall kgte klte,
     Tensor.compareArrayArray Tensor.GteOp k = Some kgte ->
     Tensor.compareArrayArray Tensor.LteOp k = Some klte ->
     kgte a b = klte b a).
Proof.
  intros Hlen. split; [|split].
  - intros keq (feq & Heq & ->)%compareArrayArray_Some.
    rewrite !kernDDBools_eq, !decide_True by lia. f_equal.
    rewrite <- (zip_with_flip feq b a).
    apply zip_with_pointwise. intros x y. apply (goCmp_eq_sym k feq Heq).
  - intros kgt klt (fgt & Hgt & ->)%compareArrayArray_Some
                   (flt & Hlt & ->)%compareArrayArray_Some.
    rewrite !kernDDBools_eq, !decide_True by lia. f_equal.
    rewrite <- (zip_with_flip flt b a).
    apply zip_with_pointwise. intros x y. apply (goCmp_gt_lt k fgt flt Hgt Hlt).
  - intros kgte klte (fge & Hge & ->)%compareArrayArray_Some
                     (fle & Hle & ->)%compareArrayArray_Some.
    rewrite !kernDDBools_eq, !decide_True by lia. f_equal.
    rewrite <- (zip_with_flip fle b a).
    apply zip_with_pointwise. intros x y.
    apply (goCmp_gte_lte k fge fle Hge Hle).
Qed.

Lemma X6_exchanged_arguments_witness :
  length [1%Z; 7%Z] = length [4%Z; 2%Z] /\
  Tensor.gtDDBoolsUintptr [1%Z; 7%Z] [4%Z; 2%Z]
  = Tensor.kernDDBools Z.ltb [4%Z; 2%Z] [1%Z; 7%Z].
Proof.
  split; [reflexivity|].
  exact (proj1 (proj2 (X6_exchanged_arguments Tensor.KUintptr
                         [1%Z; 7%Z] [4%Z; 2%Z] eq_refl))
           Tensor.gtDDBoolsUintptr (Tensor.kernDDBools Z.ltb) eq_refl eq_refl).
Defined.

(** X7. The generated file is regular.  Its 272 function names are
    pairwise distinct; a variant exists as array-array kernel exactly
    when it exists as array-scalar kernel; a same-type kernel comes with
    the mask kernel of its operator, kind and shape; the four ordering
    operators cover the same kinds, and [Eq] covers them too. *)
Theorem X7_matrix_is_regular :
  NoDup Tensor.generatedFunctions /\
  length Tensor.generatedFunctions = 272 /\
  (forall op rk k,
     Tensor.hasKernel op Tensor.DD rk k = Tensor.hasKernel op Tensor.DS rk k) /\
  (forall op sh k,
     implb (Tensor.hasKernel op sh Tensor.Same k)
           (Tensor.hasKernel op sh Tensor.Bools k) = true) /\
  (forall sh rk k,
     Tensor.hasKernel Tensor.GtOp sh rk k = Tensor.hasKernel Tensor.LtOp sh rk k /\
     Tensor.hasKernel Tensor.GteOp sh rk k = Tensor.hasKernel Tensor.LtOp sh rk k /\
     Tensor.hasKernel Tensor.LteOp sh rk k = Tensor.hasKernel Tensor.LtOp sh rk k /\
     implb (Tensor.hasKernel Tensor.LtOp sh rk k)
           (Tensor.hasKernel Tensor.EqOp sh rk k) = true).
Proof.
  split; [|split; [|split; [|split]]].
  - apply (bool_decide_unpack _). vm_compute. exact I.
  - reflexivity.
  - intros op rk k. destruct op, rk, k; vm_compute; reflexivity.
  - intros op sh k. destruct op, sh, k; vm_compute; reflexivity.
  - intros sh rk k. destruct sh, rk, k; vm_compute; repeat split.
Qed.

(** * Further properties of the kernels on the heap *)

Lemma pureCall_more_inputs {V : Type} (h : store V) (inputs : list slice)
    (out : run slice * store V) (expected : run (list V)) (s : slice) :
  pureCall h inputs out expected -> is_Some (contents h s) ->
  pureCall h (s :: inputs) out expected.
Proof.
  intros (Hun & Hin & Hfresh & Hne) [ls Hs].
  pose proof (contents_dom _ _ _ Hs) as Hdom.
  split; [done|]. split; [|split; [done|]].
  - constructor; [|done]. unfold contents. by rewrite (Hun _ Hdom).
  - intros r Hr. constructor; [|by apply Hne].
    unfold freshOutput in Hfresh. rewrite Hr in Hfresh.
    destruct Hfresh as [Hr' _]. intros E. apply Hr'. by rewrite E.
Qed.

(** X8. Calls chain.  After a same-type kernel returned [r] on the
    arguments [a] and [b], the slice [r] is a valid argument: a second
    call on [r] and [a] is again a pure call, on the store the first one
    left, which keeps [r], [a] and [b] as they are and returns its result
    in one more new array. *)
Theorem X8_calls_chain {V : Type} (h : store V) (a b : slice)
    (la lb : list V) (op : V -> V -> bool) (one zero : V) :
  contents h a = Some la -> contents h b = Some lb ->
  length la <= length lb ->
  exists r h1 out,
    Heap.kernDDSame op one zero a b h = (Ret r, h1) /\
    Tensor.kernDDSame op one zero la lb = Ret out /\
    contents h1 r = Some out /\
    contents h1 a = Some la /\ contents h1 b = Some lb /\
    pureCall h1 [b; r; a] (Heap.kernDDSame op one zero r a h1)
      (Tensor.kernDDSame op one zero out la).
Proof.
  intros Ha Hb Hlen.
  pose proof (kernDDSame_pure h a b la lb op one zero Ha Hb)
    as (Hun & Hin & Hfresh & Hne).
  destruct (Heap.kernDDSame op one zero a b h) as [res h1] eqn:E.
  simpl in *.
  rewrite kernDDSame_eq, decide_True in Hfresh by done.
  destruct res as [r|e]; [|done].
  destruct Hfresh as (Hr & out & Hout & Hc). injection Hout as <-.
  apply Forall_cons in Hin as [Ha1 Hin]. apply Forall_cons in Hin as [Hb1 _].
  rewrite Ha in Ha1. rewrite Hb in Hb1.
  exists r, h1, (zip_with (Tensor.indicator op one zero) la lb).
  split; [done|].
  split; [by rewrite kernDDSame_eq, decide_True|].
  repeat (split; [done|]).
  apply pureCall_more_inputs; [|by eauto].
  by apply kernDDSame_pure.
Qed.

Lemma X8_calls_chain_witness :
  contents sharedStore (Slice 7 0 3) = Some [1; 2; 3]%Z /\
  contents sharedStore (Slice 7 3 3) = Some [1; 5; 3]%Z /\
  length [1; 2; 3]%Z <= length [1; 5; 3]%Z /\
  exists r h1 out,
    Heap.eqDDSameI (Slice 7 0 3) (Slice 7 3 3) sharedStore = (Ret r, h1) /\
    Tensor.eqDDSameI [1; 2; 3]%Z [1; 5; 3]%Z = Ret out /\
    contents h1 r = Some out /\
    contents h1 (Slice 7 0 3) = Some [1; 2; 3]%Z /\
    contents h1 (Slice 7 3 3) = Some [1; 5; 3]%Z /\
    pureCall h1 [Slice 7 3 3; r; Slice 7 0 3]
      (Heap.eqDDSameI r (Slice 7 0 3) h1)
      (Tensor.eqDDSameI out [1; 2; 3]%Z).
Proof.
  split; [reflexivity|]. split; [reflexivity|]. split; [simpl; lia|].
  apply (X8_calls_chain sharedStore (Slice 7 0 3) (Slice 7 3 3)
           [1; 2; 3]%Z [1; 5; 3]%Z Z.eqb 1%Z 0%Z eq_refl eq_refl).
  simpl; lia.
Defined.

(** * Further properties of the generator *)

Lemma collectNames_acc (specs : list Spec) (max : gostring)
    (names : list gostring) :
  collectNames specs max names
  = (found ← collectNames specs max []; Ret (names ++ found)).
Proof.
  revert names. induction specs as [|spec rest IH]; intros names; simpl.
  - by rewrite app_nil_r.
  - destruct (asValueSpec spec) as [vs|e]; simpl; [|done].
    destruct (index vs.1 0) as [name|e]; simpl; [|done].
    case_bool_decide; [by apply IH|].
    rewrite (IH (names ++ [name])), (IH [name]).
    destruct (collectNames rest max []) as [found|e]; simpl; [|done].
    by rewrite <- app_assoc.
Qed.

#[local] Opaque collectNames.

Lemma constTypesFrom_acc (decls : list Decl) (accept max : gostring)
    (names : list gostring) :
  constTypesFrom decls accept max names
  = (found ← constTypesFrom decls accept max []; Ret (names ++ found)).
Proof.
  revert names. induction decls as [|d rest IH]; intros names.
  - simpl. by rewrite app_nil_r.
  - assert (constTypesFrom rest accept max names
            = (found ← constTypesFrom rest accept max [];
               Ret (names ++ found))) as Hskip by apply IH.
    destruct d as [|tok specs|]; simpl; try apply Hskip.
    destruct (bool_decide (Token_String tok = str "const")); [|apply Hskip].
    destruct specs as [|spec0 more]; [apply Hskip|].
    destruct (asValueSpec spec0) as [vs|e]; simpl; [|done].
    destruct vs.2 as [typ|]; [|apply Hskip].
    case_bool_decide; [apply Hskip|].
    rewrite (collectNames_acc _ _ names).
    destruct (collectNames (spec0 :: more) max []) as [found|e]; simpl; [|done].
    rewrite (IH (names ++ found)), (IH found).
    destruct (constTypesFrom rest accept max []) as [found'|e]; simpl; [|done].
    by rewrite <- app_assoc.
Qed.

(** X9. The extraction of a file made of two parts is the extraction of
    the first part followed by that of the second, and a panic in either
    part is the panic of the whole, the first part's first.  A
    declaration that is no [const] group adds nothing. *)
Theorem X9_constTypes_app (decls1 decls2 : list Decl) (accept max : gostring) :
  constTypes (decls1 ++ decls2) accept max
  = (names1 ← constTypes decls1 accept max;
     names2 ← constTypes decls2 accept max;
     Ret (names1 ++ names2)) /\
  (forall tok specs,
     tok <> CONST ->
     constTypes (GenDecl tok specs :: decls2) accept max
     = constTypes decls2 accept max) /\
  constTypes (FuncDecl :: decls2) accept max = constTypes decls2 accept max /\
  constTypes (BadDecl :: decls2) accept max = constTypes decls2 accept max.
Proof.
  split; [|split; [|done]].
  - unfold constTypes.
    assert (forall names,
              constTypesFrom (decls1 ++ decls2) accept max names
              = (names1 ← constTypesFrom decls1 accept max names;
                 constTypesFrom decls2 accept max names1)) as Happ.
    { induction decls1 as [|d rest IH]; intros names; simpl; [done|].
      destruct d as [|tok specs|]; simpl; try apply IH.
      destruct (bool_decide (Token_String tok = str "const")); [|apply IH].
      destruct specs as [|spec0 more]; [apply IH|].
      destruct (asValueSpec spec0) as [vs|e]; simpl; [|done].
      destruct vs.2 as [typ|]; [|apply IH].
      case_bool_decide; [apply IH|].
      destruct (collectNames (spec0 :: more) max names) as [found|e]; simpl;
        [apply IH|done]. }
    rewrite Happ.
    destruct (constTypesFrom decls1 accept max []) as [names1|e]; simpl; [|done].
    apply constTypesFrom_acc.
  - intros tok specs Htok. unfold constTypes. simpl.
    rewrite bool_decide_eq_false_2; [done|].
    intros E. by apply Token_String_const in E.
Qed.

#[local] Transparent collectNames.

Lemma X9_constTypes_app_witness :
  IMPORT <> CONST /\
  constTypes (GenDecl IMPORT [ImportSpec] :: sampleCatalog)
    (str "Kind") (str "maxMarker")
  = Ret [str "Add"; str "Sub"].
Proof.
  split; [discriminate|].
  exact (eq_trans
           (proj1 (proj2 (X9_constTypes_app [] sampleCatalog (str "Kind")
                            (str "maxMarker")))
              IMPORT [ImportSpec] ltac:(discriminate))
           eq_refl).
Defined.

(** X10. On a parsed file the extracted names never hold the sentinel,
    and they are first names of members of [const] groups, in the order
    of the file: a sublist of all of them. *)
Theorem X10_names_are_members (decls : list Decl) (accept max : gostring)
    (names : list gostring) :
  forallb wfDecl decls = true ->
  constTypes decls accept max = Ret names ->
  (max ∉ names) /\
  names `sublist_of` (d ← decls; omap firstName (groupSpecs d)).
Proof.
  intros Hwf. unfold constTypes. rewrite constTypesFrom_spec by done.
  simpl. intros [= <-]. unfold allGroupNames. split.
  - intros (d & Hm & _)%list_elem_of_bind.
    unfold memberNames in Hm. apply list_elem_of_filter in Hm as [Hne _].
    by apply Hne.
  - clear Hwf. induction decls as [|d rest IH]; simpl; [done|].
    rewrite filter_cons. destruct (decide (matchesGroup accept d = true)).
    + simpl. apply sublist_app; [|done].
      unfold memberNames. apply sublist_filter.
    + by apply sublist_inserts_l.
Qed.

Lemma X10_names_are_members_witness :
  forallb wfDecl sampleCatalog = true /\
  constTypes sampleCatalog (str "Kind") (str "maxMarker")
  = Ret [str "Add"; str "Sub"] /\
  (str "maxMarker" ∉ [str "Add"; str "Sub"]) /\
  [str "Add"; str "Sub"]
    `sublist_of` (d ← sampleCatalog; omap firstName (groupSpecs d)).
Proof.
  split; [reflexivity|]. split; [reflexivity|].
  exact (X10_names_are_members sampleCatalog (str "Kind") (str "maxMarker")
           [str "Add"; str "Sub"] eq_refl eq_refl).
Defined.

Lemma HasSuffix_app (s suffix : gostring) : HasSuffix (s ++ suffix) suffix = true.
Proof.
  unfold HasSuffix. rewrite length_app.
  rewrite bool_decide_eq_true_2 by lia. simpl.
  apply bool_decide_eq_true_2.
  replace (length s + length suffix - length suffix) with (length s) by lia.
  apply drop_app_length.
Qed.

Lemma TrimSuffix_app (s suffix : gostring) : TrimSuffix (s ++ suffix) suffix = s.
Proof.
  unfold TrimSuffix. rewrite HasSuffix_app, length_app.
  replace (length s + length suffix - length suffix) with (length s) by lia.
  apply take_app_length.
Qed.

Lemma HasSuffix_split (s suffix : gostring) :
  HasSuffix s suffix = true ->
  s = TrimSuffix s suffix ++ suffix.
Proof.
  intros H. unfold TrimSuffix. rewrite H. unfold HasSuffix in H.
  apply andb_prop in H as [_ H]. apply bool_decide_eq_true in H.
  set (n := length s - length suffix) in *.
  rewrite <- H. by rewrite take_drop.
Qed.

Lemma TrimSuffix_nil (v suffix : gostring) :
  TrimSuffix v suffix = [] <-> v = [] \/ v = suffix.
Proof.
  split.
  - intros E. destruct (HasSuffix v suffix) eqn:H.
    + right. rewrite (HasSuffix_split v suffix H), E. done.
    + left. unfold TrimSuffix in E. by rewrite H in E.
  - intros [-> | ->].
    + unfold TrimSuffix. by destruct (HasSuffix [] suffix); [rewrite take_nil|].
    + apply (TrimSuffix_app [] suffix).
Qed.

Lemma Capitalize_nil (U : UnicodeTables) (s : gostring) :
  Capitalize U s = [] <-> s = [].
Proof. by destruct s. Qed.

Lemma unaryApiName_eq (U : UnicodeTables) (v : gostring) :
  forallb (identRune U) v = true ->
  unaryApiName U v
  = (if bool_decide (Capitalize U (TrimSuffix v opTypeSuffix) = str "Ln")
     then str "Log" else Capitalize U (TrimSuffix v opTypeSuffix)).
Proof.
  intros H. unfold unaryApiName.
  by rewrite Title_Capitalize by by apply TrimSuffix_identRunes.
Qed.

Lemma binaryApiName_eq (U : UnicodeTables) (v : gostring) :
  forallb (identRune U) v = true ->
  binaryApiName U v
  = (if bool_decide (Capitalize U (TrimSuffix v opTypeSuffix) = str "Mul")
     then str "HadamardProd"
     else if bool_decide (Capitalize U (TrimSuffix v opTypeSuffix) = str "Div")
     then str "HadamardDiv"
     else Capitalize U (TrimSuffix v opTypeSuffix)).
Proof.
  intros H. unfold binaryApiName.
  by rewrite Title_Capitalize by by apply TrimSuffix_identRunes.
Qed.

Lemma forallb_identRune_suffix (U : UnicodeTables) (s : gostring) :
  forallb (identRune U) s = true ->
  forallb (identRune U) (s ++ opTypeSuffix) = true.
Proof.
  intros H. rewrite forallb_app, H. simpl.
  unfold identRune, isLetterRune, between. by vm_compute.
Qed.

(** X11. For a name [s] of letters, digits and underscores, the name
    [s ++ OpType] is normalised as [s] is capitalised: exactly one
    trailing [OpType] is cut, also when [s] ends in [OpType] itself, and
    then the override of the capitalised [s] applies. *)
Theorem X11_suffix_is_cut_once (U : UnicodeTables) (s : gostring) :
  forallb (identRune U) s = true ->
  TrimSuffix (s ++ opTypeSuffix) opTypeSuffix = s /\
  TrimSuffix ((s ++ opTypeSuffix) ++ opTypeSuffix) opTypeSuffix
  = s ++ opTypeSuffix /\
  unaryApiName U (s ++ opTypeSuffix)
  = (if bool_decide (Capitalize U s = str "Ln") then str "Log"
     else Capitalize U s) /\
  binaryApiName U (s ++ opTypeSuffix)
  = (if bool_decide (Capitalize U s = str "Mul") then str "HadamardProd"
     else if bool_decide (Capitalize U s = str "Div") then str "HadamardDiv"
     else Capitalize U s).
Proof.
  intros H. split; [apply TrimSuffix_app|]. split; [apply TrimSuffix_app|].
  rewrite unaryApiName_eq, binaryApiName_eq
    by by apply forallb_identRune_suffix.
  by rewrite TrimSuffix_app.
Qed.

Lemma X11_suffix_is_cut_once_witness :
  forallb (identRune asciiTables) (str "addOpType") = true /\
  binaryApiName asciiTables (str "addOpType" ++ opTypeSuffix)
  = str "AddOpType".
Proof.
  split; [reflexivity|].
  exact (eq_trans
           (proj2 (proj2 (proj2 (X11_suffix_is_cut_once asciiTables
                                   (str "addOpType") eq_refl))))
           eq_refl).
Defined.

(** X12. The public name of an identifier is empty exactly when the
    identifier is [OpType] itself; the generator then writes a function
    without a name. *)
Theorem X12_empty_public_name (U : UnicodeTables) (v : gostring) :
  isIdentifier U v = true ->
  (unaryApiName U v = [] <-> v = opTypeSuffix) /\
  (binaryApiName U v = [] <-> v = opTypeSuffix).
Proof.
  intros Hid. pose proof (isIdentifier_identRunes U v Hid) as Hr.
  assert (v <> []) as Hne by (by destruct v).
  assert (Capitalize U (TrimSuffix v opTypeSuffix) = [] <-> v = opTypeSuffix)
    as Hc.
  { rewrite Capitalize_nil, TrimSuffix_nil.
    split; [by intros [?|?] | by right]. }
  rewrite unaryApiName_eq, binaryApiName_eq by done.
  split.
  - case_bool_decide as E; [|done].
    split; [by vm_compute|]. intros Hv. apply Hc in Hv. rewrite Hv in E.
    by vm_compute in E.
  - case_bool_decide as E.
    { split; [by vm_compute|]. intros Hv. apply Hc in Hv. rewrite Hv in E.
      by vm_compute in E. }
    case_bool_decide as E'; [|done].
    split; [by vm_compute|]. intros Hv. apply Hc in Hv. rewrite Hv in E'.
    by vm_compute in E'.
Qed.

Lemma X12_empty_public_name_witness :
  isIdentifier asciiTables opTypeSuffix = true /\
  unaryApiName asciiTables opTypeSuffix = [] /\
  (Execute asciiTables unaryTemplateTree [] (unaryData asciiTables opTypeSuffix)).1
  = unaryText asciiTables [] opTypeSuffix.
Proof.
  split; [reflexivity|].
  pose proof (proj2 (proj1 (X12_empty_public_name asciiTables opTypeSuffix
                              eq_refl)) eq_refl) as E.
  split; [exact E|]. reflexivity.
Defined.

(** X13. Normalisation is not injective, and nothing checks it: a name
    that does not end in [OpType] and the same name with [OpType] added
    get one public name. *)
Theorem X13_names_collide (U : UnicodeTables) (v : gostring) :
  forallb (identRune U) v = true ->
  HasSuffix v opTypeSuffix = false ->
  v ++ opTypeSuffix <> v /\
  unaryApiName U (v ++ opTypeSuffix) = unaryApiName U v /\
  binaryApiName U (v ++ opTypeSuffix) = binaryApiName U v.
Proof.
  intros Hr Hs. split.
  - intros E. apply (f_equal length) in E. rewrite length_app in E.
    vm_compute (length opTypeSuffix) in E. lia.
  - rewrite !unaryApiName_eq, !binaryApiName_eq
      by (done || by apply forallb_identRune_suffix).
    rewrite TrimSuffix_app. unfold TrimSuffix. by rewrite Hs.
Qed.

Lemma X13_names_collide_witness :
  forallb (identRune asciiTables) (str "add") = true /\
  HasSuffix (str "add") opTypeSuffix = false /\
  str "add" ++ opTypeSuffix <> str "add" /\
  binaryApiName asciiTables (str "add" ++ opTypeSuffix)
  = binaryApiName asciiTables (str "add").
Proof.
  split; [reflexivity|]. split; [reflexivity|].
  pose proof (X13_names_collide asciiTables (str "add") eq_refl eq_refl)
    as (Hne & _ & Hb).
  split; [exact Hne | exact Hb].
Defined.

Section Rendering.
Variable U : UnicodeTables.

(** Running a list of nodes, as [execNode] does for the branch of a
    conditional, is [execList]. *)
Lemma execNode_If (data : Data) (cond : Pipe) (thenList elseList : list Node)
    (out : gostring) :
  execNode U data (If cond thenList elseList) out
  = match evalPipe U data cond with
    | inr v => execList U data (if truth v then thenList else elseList) out
    | inl e => (out, Some e)
    end.
Proof.
  simpl. destruct (evalPipe U data cond) as [e|v]; [done|].
  generalize (if truth v then thenList else elseList). intros ns.
  revert out. induction ns as [|n rest IH]; intros out; simpl; [done|].
  destruct (execNode U data n out) as [out' [e|]]; [done|]. apply IH.
Qed.

(** What a node writes does not depend on what was written before, and
    is written behind it. *)
Lemma execNode_appends (data : Data) :
  forall (n : Node) (out : gostring),
    execNode U data n out
    = (out ++ (execNode U data n []).1, (execNode U data n []).2).
Proof.
  fix IH 1. intros [text|pipe|cond thenList elseList] out.
  - done.
  - simpl. destruct (evalPipe U data pipe) as [e|v]; simpl; [|done].
    by rewrite app_nil_r.
  - rewrite !execNode_If.
    destruct (evalPipe U data cond) as [e|v]; simpl; [by rewrite app_nil_r|].
    generalize (if truth v then thenList else elseList). intros ns.
    revert out. induction ns as [|n rest IHl]; intros out; simpl.
    + by rewrite app_nil_r.
    + rewrite (IH n out).
      destruct (execNode U data n []) as [w [e|]]; simpl; [done|].
      rewrite (IHl (out ++ w)), (IHl w).
      by rewrite <- app_assoc.
Qed.

Lemma execList_appends (data : Data) (ns : list Node) (out : gostring) :
  execList U data ns out
  = (out ++ (execList U data ns []).1, (execList U data ns []).2).
Proof.
  revert out. induction ns as [|n rest IH]; intros out; simpl.
  - by rewrite app_nil_r.
  - rewrite (execNode_appends data n out).
    destruct (execNode U data n []) as [w [e|]]; simpl; [done|].
    rewrite (IH (out ++ w)), (IH w). by rewrite <- app_assoc.
Qed.

Lemma renderAll_appends (t : list Node) (data : gostring -> Data)
    (names : list gostring) (out : gostring) :
  renderAll U t data names out = out ++ renderAll U t data names [].
Proof.
  revert out. induction names as [|v rest IH]; intros out; simpl.
  - by rewrite app_nil_r.
  - unfold Execute. rewrite (execList_appends (data v) t out). simpl.
    rewrite (IH (out ++ _)), (IH ((execList U (data v) t []).1)).
    by rewrite <- app_assoc.
Qed.
End Rendering.

(** X14. Executing a template, whichever it is and on whatever data,
    only appends: the text already in the output stays in front, and
    what is appended, and the error if any, do not depend on that
    text. *)
Theorem X14_execute_appends (U : UnicodeTables) (t : list Node)
    (outFile : gostring) (data : Data) :
  Execute U t outFile data
  = (outFile ++ (Execute U t [] data).1, (Execute U t [] data).2).
Proof. apply execList_appends. Qed.

(** X15. No template makes a run stop.  On a parsed file, with any two
    templates in the package variables, each generator finishes and
    leaves the text it was given in front of what it wrote; so does
    [main], behind the header. *)
Theorem X15_rendering_never_stops (U : UnicodeTables) (g : Templates)
    (unaryDecls binaryDecls : list Decl) (outFile : gostring) :
  forallb wfDecl unaryDecls = true ->
  forallb wfDecl binaryDecls = true ->
  (exists text, generateUnary U g (Parsed unaryDecls) outFile
                = Done (outFile ++ text)) /\
  (exists text, generateBinary U g (Parsed binaryDecls) outFile
                = Done (outFile ++ text)) /\
  (exists text, main U g true (Parsed unaryDecls) (Parsed binaryDecls)
                = Done (header ++ text)).
Proof.
  intros Hu Hb.
  assert (forall out, generateUnary U g (Parsed unaryDecls) out
            = Done (out ++ renderAll U (unaryTemplate g) (unaryData U)
                              (allGroupNames unaryDecls unaryAccept unaryMax)
                              [])) as Eu.
  { intros out. unfold generateUnary, constTypes.
    rewrite constTypesFrom_spec by done. simpl. f_equal.
    apply renderAll_appends. }
  assert (forall out, generateBinary U g (Parsed binaryDecls) out
            = Done (out ++ renderAll U (binaryTemplate g) (binaryData U)
                              (allGroupNames binaryDecls binaryAccept binaryMax)
                              [])) as Eb.
  { intros out. unfold generateBinary, constTypes.
    rewrite constTypesFrom_spec by done. simpl. f_equal.
    apply renderAll_appends. }
  split; [eexists; apply Eu|]. split; [eexists; apply Eb|].
  unfold main. rewrite Eu, Eb. eexists. by rewrite <- app_assoc.
Qed.

Lemma X15_rendering_never_stops_witness :
  forallb wfDecl unaryCatalog = true /\
  forallb wfDecl sampleCatalog = true /\
  exists text,
    main asciiTables brokenTemplates true (Parsed unaryCatalog)
      (Parsed sampleCatalog)
    = Done (header ++ text).
Proof.
  split; [reflexivity|]. split; [reflexivity|].
  exact (proj2 (proj2 (X15_rendering_never_stops asciiTables brokenTemplates
                         unaryCatalog sampleCatalog [] eq_refl eq_refl))).
Defined.

(** X16. A run of [main] with the templates of the generator on two
    parsed files writes the header, then one block per unary operator in
    catalog order, then one block per binary operator in catalog order. *)
Theorem X16_main_output (U : UnicodeTables)
    (unaryDecls binaryDecls : list Decl) :
  forallb wfDecl unaryDecls = true ->
  forallb wfDecl binaryDecls = true ->
  main U init true (Parsed unaryDecls) (Parsed binaryDecls)
  = Done (header
          ++ mjoin ((fun v => unaryText U (unaryApiName U v) v)
                    <$> allGroupNames unaryDecls unaryAccept unaryMax)
          ++ mjoin ((fun v => binaryText U (binaryApiName U v) v
                                (binaryAsSame (binaryApiName U v)))
                    <$> allGroupNames binaryDecls binaryAccept binaryMax)).
Proof.
  intros Hu Hb.
  assert (forall out, generateUnary U init (Parsed unaryDecls) out
            = Done (out ++ mjoin ((fun v => unaryText U (unaryApiName U v) v)
                                  <$> allGroupNames unaryDecls unaryAccept
                                        unaryMax))) as Eu.
  { intros out. unfold generateUnary, constTypes.
    rewrite constTypesFrom_spec by done. simpl. f_equal.
    apply (renderAll_texts U _ _ (fun v => unaryText U (unaryApiName U v) v)).
    intros v out'. apply Execute_unary. }
  assert (forall out, generateBinary U init (Parsed binaryDecls) out
            = Done (out ++ mjoin ((fun v => binaryText U (binaryApiName U v) v
                                              (binaryAsSame (binaryApiName U v)))
                                  <$> allGroupNames binaryDecls binaryAccept
                                        binaryMax))) as Eb.
  { intros out. unfold generateBinary, constTypes.
    rewrite constTypesFrom_spec by done. simpl. f_equal.
    apply (renderAll_texts U _ _
             (fun v => binaryText U (binaryApiName U v) v
                         (binaryAsSame (binaryApiName U v)))).
    intros v out'. apply Execute_binary. }
  unfold main. rewrite Eu, Eb. by rewrite <- app_assoc.
Qed.

Lemma X16_main_output_witness :
  forallb wfDecl unaryCatalog = true /\
  forallb wfDecl [] = true /\
  main asciiTables init true (Parsed unaryCatalog) (Parsed [])
  = Done (header
          ++ unaryText asciiTables (str "Abs") (str "absOpType")
          ++ unaryText asciiTables (str "Sign") (str "signOpType")).
Proof.
  split; [reflexivity|]. split; [reflexivity|].
  exact (eq_trans
           (X16_main_output asciiTables unaryCatalog [] eq_refl eq_refl)
           eq_refl).
Defined.

Lemma TrimSuffix_head (r : rune) (rest suffix : gostring) :
  r :: rest <> suffix ->
  exists tail, TrimSuffix (r :: rest) suffix = r :: tail.
Proof.
  intros Hne. destruct (HasSuffix (r :: rest) suffix) eqn:H.
  - pose proof (HasSuffix_split _ _ H) as E.
    destruct (TrimSuffix (r :: rest) suffix) as [|r' tail] eqn:Et.
    + simpl in E. by destruct Hne.
    + simpl in E. injection E as <- _. eauto.
  - exists rest. unfold TrimSuffix. by rewrite H.
Qed.

Lemma unicodeToTitle_upper (U : UnicodeTables) (r : rune) :
  between 97 122 r || between 65 90 r = true ->
  between 65 90 (unicodeToTitle U r) = true.
Proof.
  unfold unicodeToTitle, between. intros H.
  destruct (Z.leb_spec r 127) as [H127|H127].
  - destruct ((97 <=? r)%Z && (r <=? 122)%Z) eqn:E; simpl in *; [|done].
    apply andb_prop in E as [E1 E2]. apply Z.leb_le in E1, E2.
    apply andb_true_intro. split; apply Z.leb_le; lia.
  - apply orb_prop in H as [H|H]; apply andb_prop in H as [H1 H2];
      apply Z.leb_le in H1, H2; lia.
Qed.

(** X17. An identifier that begins with an ASCII letter and is not
    [OpType] itself gets a public name that begins with an upper-case
    ASCII letter: the function written for it is exported. *)
Theorem X17_public_name_is_exported (U : UnicodeTables) (r : rune)
    (rest : gostring) :
  isIdentifier U (r :: rest) = true ->
  between 97 122 r || between 65 90 r = true ->
  r :: rest <> opTypeSuffix ->
  (exists R tail, unaryApiName U (r :: rest) = R :: tail
                  /\ between 65 90 R = true) /\
  (exists R tail, binaryApiName U (r :: rest) = R :: tail
                  /\ between 65 90 R = true).
Proof.
  intros Hid Hr Hne. pose proof (isIdentifier_identRunes U _ Hid) as Hrs.
  destruct (TrimSuffix_head r rest opTypeSuffix Hne) as [tail Ht].
  rewrite unaryApiName_eq, binaryApiName_eq by done. rewrite Ht. simpl.
  split.
  - case_bool_decide; [by exists 76%Z, (str "og")|].
    exists (unicodeToTitle U r), tail. split; [done|].
    by apply unicodeToTitle_upper.
  - case_bool_decide; [by exists 72%Z, (str "adamardProd")|].
    case_bool_decide; [by exists 72%Z, (str "adamardDiv")|].
    exists (unicodeToTitle U r), tail. split; [done|].
    by apply unicodeToTitle_upper.
Qed.

Lemma X17_public_name_is_exported_witness :
  isIdentifier asciiTables (str "lnOpType") = true /\
  exists R tail, unaryApiName asciiTables (str "lnOpType") = R :: tail
                 /\ between 65 90 R = true.
Proof.
  split; [reflexivity|].
  exact (proj1 (X17_public_name_is_exported asciiTables 108%Z (str "nOpType")
                  eq_refl eq_refl ltac:(discriminate))).
Defined.
